(** * The Sudoku session engine of [frontend/src/components/Game.jsx]

    A shallow embedding of the state of the [Game] component and of the
    callbacks that change it, followed by the properties of the session
    engine that the specification states about them.

    Conventions of the embedding.
    - A JavaScript number is an exact integer ([Z]) or rational ([Q]); the
      counters of a game stay far below 2^53 and the multipliers are dyadic,
      so no IEEE rounding takes place.  [NaN] is [None] where it can occur.
    - A cell of a grid is a [value]: a number or [undefined] (what reading
      past the end of a row gives).  Reading a property of [undefined] or
      [null] throws a [TypeError]; callbacks live in the [option] monad and
      [None] is that exception.  In every callback all reads come before the
      first state setter, so a callback that throws changes nothing.
    - One [event] is one callback run by the browser (a key, a click, the
      interval, the 100 ms timer, the arrival of the fetched puzzle), followed
      by the render it causes and the effects of that render. *)

From Stdlib Require Import ZArith QArith Qround String Ascii Lia DecimalString.
From stdpp Require Import base option list.

Open Scope string_scope.
Open Scope list_scope.
Open Scope Z_scope.

(** ** JavaScript values and arrays *)

Inductive value : Type :=
| Undefined
| Num (n : Z).

(** [a === b] on cell values. *)
Definition strict_eq (a b : value) : bool :=
  match a, b with
  | Undefined, Undefined => true
  | Num x, Num y => x =? y
  | _, _ => false
  end.

Arguments strict_eq : simpl nomatch.

Infix "===" := strict_eq (at level 70, no associativity).
Notation "a !== b" := (negb (strict_eq a b)) (at level 70, no associativity).

(** A grid is an array of rows. *)
Abbreviation grid := (list (list value)).

(** [row[j]]: [undefined] past the end. *)
Definition get (row : list value) (j : nat) : value :=
  default Undefined (row !! j).

(** [g[i][j]]: throws when [g[i]] is [undefined]. *)
Definition grid_get (g : grid) (i j : nat) : option value :=
  row ← g !! i; Some (get row j).

(** [row[j] = x]: JavaScript extends the array when [j] is past the end,
    and the skipped positions read as [undefined]. *)
Definition array_set (j : nat) (x : value) (row : list value) : list value :=
  if decide (j < length row)%nat then <[j := x]> row
  else row ++ replicate (j - length row) Undefined ++ [x].

(** [g[i][j] = x] for a row [g[i]] that exists (the callbacks read [g[i]]
    before they write to it). *)
Definition grid_set (i j : nat) (x : value) (g : grid) : grid :=
  alter (array_set j x) i g.

(** [for (let k = 0; k < 9; k++) body] threading an accumulator. *)
Fixpoint for_each {S : Type} (ks : list nat) (body : nat → S → option S)
    (acc : S) : option S :=
  match ks with
  | [] => Some acc
  | k :: ks' => acc' ← body k acc; for_each ks' body acc'
  end.

(** A [for] loop that leaves at the first index whose test fails ([break] or
    [return false]). *)
Fixpoint all_until (ks : list nat) (test : nat → option bool) : option bool :=
  match ks with
  | [] => Some true
  | k :: ks' =>
      test k ≫= λ b : bool, if b then all_until ks' test else Some false
  end.

Definition range9 : list nat := seq 0 9.

(** [arr[i]] for a computed index [i = Math.floor(...)]. *)
Definition index_Z {A : Type} (arr : list A) (i : Z) : option A :=
  if i <? 0 then None else arr !! Z.to_nat i.

(** [Math.round]: to the nearest integer, halves upwards. *)
Definition Math_round (x : Q) : Z := Qfloor (x + (1 # 2)).

Definition lower_ascii (c : ascii) : ascii :=
  let n := nat_of_ascii c in
  if ((65 <=? n) && (n <=? 90))%nat then ascii_of_nat (n + 32) else c.

(** [s.toLowerCase()] on ASCII letters. *)
Fixpoint toLowerCase (s : string) : string :=
  match s with
  | EmptyString => EmptyString
  | String c s' => String (lower_ascii c) (toLowerCase s')
  end.

(** ** The score *)

Module FinalScore.
(** The object handed to [setFinalScore]. [total] is [None] for [NaN],
    [multiplier] is [None] when the table lookup is not a number. *)
Record t : Type := Build {
  total : option Z;
  base : Z;
  mistakePenalty : Z;
  hintPenalty : Z;
  correctAnswers : Z;
  correctAnswerBonus : Z;
  timeBonus : Z;
  multiplier : option Q;
  perfectBonus : Z;
  difficulty : string;
  time : Z;
  mistakes : Z;
  hints : Z
}.
End FinalScore.

Definition BASE_SCORE : Z := 10000.
Definition CORRECT_ANSWER_BONUS : Z := 100.
Definition MISTAKE_PENALTY : Z := 300.
Definition HINT_PENALTY : Z := 800.
Definition PERFECT_BONUS : Z := 2000.
Definition TIME_BONUS_3MIN : Z := 3000.
Definition TIME_BONUS_5MIN : Z := 2000.
Definition TIME_BONUS_10MIN : Z := 1000.
Definition TIME_BONUS_15MIN : Z := 500.

(** What [difficultyMultipliers[key]] finds: a number of the literal, a member
    inherited from [Object.prototype], or nothing. *)
Inductive member : Type :=
| Own (m : Q)
| Inherited
| Absent.

Definition difficultyMultipliers (key : string) : member :=
  if String.eqb key "easy" then Own 1
  else if String.eqb key "medium" then Own (3 # 2)
  else if String.eqb key "hard" then Own 2
  else if String.eqb key "random" then Own (5 # 4)
  else if String.eqb key "constructor" then Inherited
  else if String.eqb key "__proto__" then Inherited
  else Absent.

(** [difficultyMultipliers[difficulty.toLowerCase()] || 1.0]. *)
Definition multiplier_of (difficulty : string) : option Q :=
  match difficultyMultipliers (toLowerCase difficulty) with
  | Own m => Some m
  | Inherited => None
  | Absent => Some 1%Q
  end.

(** [Math.round(score * multiplier)]. *)
Definition apply_multiplier (score : Z) (multiplier : option Q) : option Z :=
  m ← multiplier; Some (Math_round (inject_Z score * m)).

Definition time_bonus (timer : Z) : Z :=
  if timer <? 180 then TIME_BONUS_3MIN
  else if timer <? 300 then TIME_BONUS_5MIN
  else if timer <? 600 then TIME_BONUS_10MIN
  else if timer <? 900 then TIME_BONUS_15MIN
  else 0.

(** [calculateLiveScore], from the values it closes over. *)
Definition calculateLiveScore (correctAnswers mistakes hintsUsed : Z)
    (difficulty : string) : option Z :=
  let score := BASE_SCORE in
  let score := score + correctAnswers * CORRECT_ANSWER_BONUS in
  let score := score - mistakes * MISTAKE_PENALTY in
  let score := score - hintsUsed * HINT_PENALTY in
  let multiplier := multiplier_of difficulty in
  score ← apply_multiplier score multiplier;
  Some (Z.max 0 score).

(** [calculateScore], from the values it closes over: the object it passes to
    [setFinalScore]. *)
Definition calculateScore (correctAnswers mistakes hintsUsed timer : Z)
    (difficulty : string) : FinalScore.t :=
  let score := BASE_SCORE in
  let score := score + correctAnswers * CORRECT_ANSWER_BONUS in
  let score := score - mistakes * MISTAKE_PENALTY in
  let score := score - hintsUsed * HINT_PENALTY in
  let timeBonus := time_bonus timer in
  let score := score + timeBonus in
  let multiplier := multiplier_of difficulty in
  let score := apply_multiplier score multiplier in
  let isPerfect := (mistakes =? 0) && (hintsUsed =? 0) in
  let score := if isPerfect then (λ x, x + PERFECT_BONUS) <$> score else score in
  let score := Z.max 0 <$> score in
  FinalScore.Build
    score
    BASE_SCORE
    (mistakes * MISTAKE_PENALTY)
    (hintsUsed * HINT_PENALTY)
    correctAnswers
    (correctAnswers * CORRECT_ANSWER_BONUS)
    timeBonus
    multiplier
    (if isPerfect then PERFECT_BONUS else 0)
    difficulty
    timer
    mistakes
    hintsUsed.

(** ** The state of the component *)

Module Data.
(** The object the puzzle provider returns ([data.puzzle], [data.solution]). *)
Record t : Type := Build {
  puzzle : grid;
  solution : grid
}.
End Data.

(** The [useState] cells of [Game] that the session engine reads or writes
    ([null] is [None]), and two pieces of state that React and the browser
    keep for it:
    - [memoCorrectAnswers], the value of [correctAnswers] inside the memoised
      [calculateScore]: its [useCallback] lists [timer, mistakes, hintsUsed,
      difficulty], so the callback is rebuilt, and sees the current
      [correctAnswers], only in a render where one of those four changed;
    - [timeouts], the callbacks [handleNumberInput] gave to [setTimeout] that
      have not run yet, oldest first, each with the [newBoard] and the
      [solution] it closes over. *)
Record Game : Type := Build_Game {
  puzzle : option grid;
  solution : option grid;
  board : option grid;
  initialBoard : option grid;
  selectedCell : option (nat * nat);
  timer : Z;
  isTimerRunning : bool;
  isWon : bool;
  mistakes : Z;
  hintsUsed : Z;
  correctAnswers : Z;
  finalScore : option FinalScore.t;
  showScoreModal : bool;
  difficulty : string;
  highlightedNumber : option value;
  memoCorrectAnswers : Z;
  timeouts : list (grid * option grid)
}.

Definition setPuzzle (v : option grid) (s : Game) : Game :=
  Build_Game v (solution s) (board s) (initialBoard s) (selectedCell s)
    (timer s) (isTimerRunning s) (isWon s) (mistakes s) (hintsUsed s)
    (correctAnswers s) (finalScore s) (showScoreModal s) (difficulty s)
    (highlightedNumber s) (memoCorrectAnswers s) (timeouts s).

Definition setSolution (v : option grid) (s : Game) : Game :=
  Build_Game (puzzle s) v (board s) (initialBoard s) (selectedCell s)
    (timer s) (isTimerRunning s) (isWon s) (mistakes s) (hintsUsed s)
    (correctAnswers s) (finalScore s) (showScoreModal s) (difficulty s)
    (highlightedNumber s) (memoCorrectAnswers s) (timeouts s).

Definition setBoard (v : option grid) (s : Game) : Game :=
  Build_Game (puzzle s) (solution s) v (initialBoard s) (selectedCell s)
    (timer s) (isTimerRunning s) (isWon s) (mistakes s) (hintsUsed s)
    (correctAnswers s) (finalScore s) (showScoreModal s) (difficulty s)
    (highlightedNumber s) (memoCorrectAnswers s) (timeouts s).

Definition setInitialBoard (v : option grid) (s : Game) : Game :=
  Build_Game (puzzle s) (solution s) (board s) v (selectedCell s)
    (timer s) (isTimerRunning s) (isWon s) (mistakes s) (hintsUsed s)
    (correctAnswers s) (finalScore s) (showScoreModal s) (difficulty s)
    (highlightedNumber s) (memoCorrectAnswers s) (timeouts s).

Definition setSelectedCell (v : option (nat * nat)) (s : Game) : Game :=
  Build_Game (puzzle s) (solution s) (board s) (initialBoard s) v
    (timer s) (isTimerRunning s) (isWon s) (mistakes s) (hintsUsed s)
    (correctAnswers s) (finalScore s) (showScoreModal s) (difficulty s)
    (highlightedNumber s) (memoCorrectAnswers s) (timeouts s).

Definition setTimer (v : Z) (s : Game) : Game :=
  Build_Game (puzzle s) (solution s) (board s) (initialBoard s) (selectedCell s)
    v (isTimerRunning s) (isWon s) (mistakes s) (hintsUsed s)
    (correctAnswers s) (finalScore s) (showScoreModal s) (difficulty s)
    (highlightedNumber s) (memoCorrectAnswers s) (timeouts s).

Definition setIsTimerRunning (v : bool) (s : Game) : Game :=
  Build_Game (puzzle s) (solution s) (board s) (initialBoard s) (selectedCell s)
    (timer s) v (isWon s) (mistakes s) (hintsUsed s)
    (correctAnswers s) (finalScore s) (showScoreModal s) (difficulty s)
    (highlightedNumber s) (memoCorrectAnswers s) (timeouts s).

Definition setIsWon (v : bool) (s : Game) : Game :=
  Build_Game (puzzle s) (solution s) (board s) (initialBoard s) (selectedCell s)
    (timer s) (isTimerRunning s) v (mistakes s) (hintsUsed s)
    (correctAnswers s) (finalScore s) (showScoreModal s) (difficulty s)
    (highlightedNumber s) (memoCorrectAnswers s) (timeouts s).

Definition setMistakes (v : Z) (s : Game) : Game :=
  Build_Game (puzzle s) (solution s) (board s) (initialBoard s) (selectedCell s)
    (timer s) (isTimerRunning s) (isWon s) v (hintsUsed s)
    (correctAnswers s) (finalScore s) (showScoreModal s) (difficulty s)
    (highlightedNumber s) (memoCorrectAnswers s) (timeouts s).

Definition setHintsUsed (v : Z) (s : Game) : Game :=
  Build_Game (puzzle s) (solution s) (board s) (initialBoard s) (selectedCell s)
    (timer s) (isTimerRunning s) (isWon s) (mistakes s) v
    (correctAnswers s) (finalScore s) (showScoreModal s) (difficulty s)
    (highlightedNumber s) (memoCorrectAnswers s) (timeouts s).

Definition setCorrectAnswers (v : Z) (s : Game) : Game :=
  Build_Game (puzzle s) (solution s) (board s) (initialBoard s) (selectedCell s)
    (timer s) (isTimerRunning s) (isWon s) (mistakes s) (hintsUsed s)
    v (finalScore s) (showScoreModal s) (difficulty s)
    (highlightedNumber s) (memoCorrectAnswers s) (timeouts s).

Definition setFinalScore (v : option FinalScore.t) (s : Game) : Game :=
  Build_Game (puzzle s) (solution s) (board s) (initialBoard s) (selectedCell s)
    (timer s) (isTimerRunning s) (isWon s) (mistakes s) (hintsUsed s)
    (correctAnswers s) v (showScoreModal s) (difficulty s)
    (highlightedNumber s) (memoCorrectAnswers s) (timeouts s).

Definition setShowScoreModal (v : bool) (s : Game) : Game :=
  Build_Game (puzzle s) (solution s) (board s) (initialBoard s) (selectedCell s)
    (timer s) (isTimerRunning s) (isWon s) (mistakes s) (hintsUsed s)
    (correctAnswers s) (finalScore s) v (difficulty s)
    (highlightedNumber s) (memoCorrectAnswers s) (timeouts s).

Definition setDifficulty (v : string) (s : Game) : Game :=
  Build_Game (puzzle s) (solution s) (board s) (initialBoard s) (selectedCell s)
    (timer s) (isTimerRunning s) (isWon s) (mistakes s) (hintsUsed s)
    (correctAnswers s) (finalScore s) (showScoreModal s) v
    (highlightedNumber s) (memoCorrectAnswers s) (timeouts s).

Definition setHighlightedNumber (v : option value) (s : Game) : Game :=
  Build_Game (puzzle s) (solution s) (board s) (initialBoard s) (selectedCell s)
    (timer s) (isTimerRunning s) (isWon s) (mistakes s) (hintsUsed s)
    (correctAnswers s) (finalScore s) (showScoreModal s) (difficulty s)
    v (memoCorrectAnswers s) (timeouts s).

Definition setMemoCorrectAnswers (v : Z) (s : Game) : Game :=
  Build_Game (puzzle s) (solution s) (board s) (initialBoard s) (selectedCell s)
    (timer s) (isTimerRunning s) (isWon s) (mistakes s) (hintsUsed s)
    (correctAnswers s) (finalScore s) (showScoreModal s) (difficulty s)
    (highlightedNumber s) v (timeouts s).

Definition setTimeouts (v : list (grid * option grid)) (s : Game) : Game :=
  Build_Game (puzzle s) (solution s) (board s) (initialBoard s) (selectedCell s)
    (timer s) (isTimerRunning s) (isWon s) (mistakes s) (hintsUsed s)
    (correctAnswers s) (finalScore s) (showScoreModal s) (difficulty s)
    (highlightedNumber s) (memoCorrectAnswers s) v.

(** The component as first rendered: the initial values of its [useState]
    calls. *)
Definition mount : Game :=
  Build_Game None None None None None 0 false false 0 0 0 None false "random"
    None 0 [].

(** ** The callbacks *)

(** The effect on [data]: it runs when a fetched puzzle arrives and applies
    it as it is. *)
Definition initialize (data : option Data.t) (s : Game) : Game :=
  match data with
  | Some data =>
      let puzzleData := Data.puzzle data in
      let solutionData := Data.solution data in
      let initial := puzzleData in
      let s := setPuzzle (Some puzzleData) s in
      let s := setSolution (Some solutionData) s in
      let s := setBoard (Some puzzleData) s in
      let s := setInitialBoard (Some initial) s in
      let s := setSelectedCell None s in
      let s := setTimer 0 s in
      let s := setIsTimerRunning true s in
      let s := setIsWon false s in
      let s := setMistakes 0 s in
      let s := setHintsUsed 0 s in
      let s := setCorrectAnswers 0 s in
      let s := setFinalScore None s in
      setShowScoreModal false s
  | None => s
  end.

(** The [setInterval] callback; the interval exists while
    [isTimerRunning && !isWon]. *)
Definition tick (s : Game) : Game :=
  if isTimerRunning s && negb (isWon s) then setTimer (timer s + 1) s else s.

(** The loops of the [setTimeout] callback of [handleNumberInput]: the value
    of [isComplete] when they end. *)
Definition isComplete (newBoard : grid) (solution : option grid) : option bool :=
  all_until range9 (λ i,
    all_until range9 (λ j,
      a ← grid_get newBoard i j;
      sol ← solution;
      b ← grid_get sol i j;
      Some (a === b))).

(** [handleNumberInput(value)]. *)
Definition handleNumberInput (value : Z) (s : Game) : option Game :=
  match board s, selectedCell s with
  | Some b, Some (row, col) =>
      if isWon s then Some s else
      ib ← initialBoard s;
      initial ← grid_get ib row col;
      if initial !== Num 0 then Some s else
      old ← grid_get b row col;
      wasCorrect ←
        (if old !== Num 0 then
           match solution s with
           | Some sol => v ← grid_get sol row col; Some (v === old)
           | None => Some false
           end
         else Some false);
      s' ←
        (if old === Num value then
           let newBoard := grid_set row col (Num 0) b in
           let s1 :=
             if wasCorrect && (initial === Num 0)
             then setCorrectAnswers (Z.max 0 (correctAnswers s - 1)) s
             else s in
           Some (newBoard, s1)
         else
           let newBoard := grid_set row col (Num value) b in
           s1 ←
             (if negb (value =? 0) then
                match solution s with
                | Some sol =>
                    v ← grid_get sol row col;
                    if v === Num value then
                      let wasEmpty := old === Num 0 in
                      let wasWrong := (old !== Num 0) && (old !== v) in
                      if wasEmpty || wasWrong
                      then Some (setCorrectAnswers (correctAnswers s + 1) s)
                      else Some s
                    else Some (setMistakes (mistakes s + 1) s)
                | None => Some s
                end
              else Some s);
           Some (newBoard, s1));
      let '(newBoard, s1) := s' in
      let s2 := setBoard (Some newBoard) s1 in
      let s3 :=
        if negb (value =? 0)
        then setHighlightedNumber (Some (Num value)) s2
        else setHighlightedNumber None s2 in
      Some (setTimeouts (timeouts s3 ++ [(newBoard, solution s)]) s3)
  | _, _ => Some s
  end.

(** The oldest pending [setTimeout] callback runs. *)
Definition timeoutFires (s : Game) : option Game :=
  match timeouts s with
  | [] => Some s
  | (newBoard, sol) :: rest =>
      let s := setTimeouts rest s in
      match isComplete newBoard sol with
      | Some true => Some (setIsTimerRunning false (setIsWon true s))
      | Some false => Some s
      | None => Some s
      end
  end.

(** The two loops of [handleHint] that collect [emptyCells]. *)
Definition emptyCells (board initialBoard : grid) : option (list (nat * nat)) :=
  for_each range9 (λ i acc,
    for_each range9 (λ j acc,
      b ← grid_get board i j;
      if b === Num 0 then
        ib ← grid_get initialBoard i j;
        if ib === Num 0 then Some (acc ++ [(i, j)]) else Some acc
      else Some acc) acc) [].

(** [handleHint()]; [random] is the result of [Math.random()]. *)
Definition handleHint (random : Q) (s : Game) : option Game :=
  match board s, solution s, initialBoard s with
  | Some b, Some sol, Some ib =>
      if isWon s then Some s else
      if 3 <=? hintsUsed s then Some s else
      cells ← emptyCells b ib;
      if (length cells =? 0)%nat then Some s else
      let index := Qfloor (random * inject_Z (Z.of_nat (length cells))) in
      randomCell ← index_Z cells index;
      let '(row, col) := randomCell in
      correctValue ← grid_get sol row col;
      let newBoard := grid_set row col correctValue b in
      let s := setBoard (Some newBoard) s in
      let s := setHintsUsed (hintsUsed s + 1) s in
      let s := setSelectedCell (Some (row, col)) s in
      Some (setHighlightedNumber (Some correctValue) s)
  | _, _, _ => Some s
  end.

(** [isNumberComplete(num)]; the accumulator is [None] once the loops have
    returned [false]. *)
Definition isNumberComplete (num : Z) (s : Game) : option bool :=
  match board s, solution s with
  | Some b, Some sol =>
      r ← for_each range9 (λ i acc,
             for_each range9 (λ j (acc : option nat),
               match acc with
               | None => Some None
               | Some count =>
                   v ← grid_get b i j;
                   if v === Num num then
                     w ← grid_get sol i j;
                     if w !== Num num then Some None else Some (Some (S count))
                   else Some acc
               end) acc) (Some 0%nat);
      Some (match r with Some count => (count =? 9)%nat | None => false end)
  | _, _ => Some false
  end.

(** The [onClick] of the cell rendered at [(rowIndex, colIndex)], with the
    [cell] and [isInitial] of that render; where the board has no such cell
    there is nothing to click. *)
Definition cellClick (rowIndex colIndex : nat) (s : Game) : option Game :=
  b ← board s;
  row ← b !! rowIndex;
  cell ← row !! colIndex;
  ib ← initialBoard s;
  initial ← grid_get ib rowIndex colIndex;
  let isInitial := initial !== Num 0 in
  if cell !== Num 0 then
    if match highlightedNumber s with Some h => h === cell | None => false end
    then Some (setSelectedCell None (setHighlightedNumber None s))
    else Some (setSelectedCell None (setHighlightedNumber (Some cell) s))
  else
    let s := setHighlightedNumber None s in
    if negb isInitial || (cell === Num 0)
    then Some (setSelectedCell (Some (rowIndex, colIndex)) s)
    else Some s.

Inductive key : Type :=
| Digit (n : Z)   (* the keys "1" to "9": [parseInt(e.key)] is [n] *)
| Backspace
| Delete
| ArrowUp
| ArrowDown
| ArrowLeft
| ArrowRight.

(** [handleKeyPress(e)], the [keydown] listener. *)
Definition handleKeyPress (k : key) (s : Game) : option Game :=
  match selectedCell s with
  | None => Some s
  | Some (r, c) =>
      if isWon s then Some s else
      match k with
      | Digit n => handleNumberInput n s
      | Backspace | Delete => handleNumberInput 0 s
      | ArrowUp =>
          if (0 <? r)%nat then Some (setSelectedCell (Some (r - 1, c)%nat) s)
          else Some s
      | ArrowDown =>
          if (r <? 8)%nat then Some (setSelectedCell (Some (r + 1, c)%nat) s)
          else Some s
      | ArrowLeft =>
          if (0 <? c)%nat then Some (setSelectedCell (Some (r, c - 1)%nat) s)
          else Some s
      | ArrowRight =>
          if (c <? 8)%nat then Some (setSelectedCell (Some (r, c + 1)%nat) s)
          else Some s
      end
  end.

(** The [onClick] of the button of [num] on the number pad. *)
Definition numberButton (num : Z) (s : Game) : option Game :=
  isComplete ← isNumberComplete num s;
  if isWon s || isComplete then Some s else
  match selectedCell s with
  | Some _ => handleNumberInput num s
  | None => Some s
  end.

(** The hint button: [disabled] when [isWon || hintsUsed >= 3]. *)
Definition hintButton (random : Q) (s : Game) : option Game :=
  if isWon s || (3 <=? hintsUsed s) then Some s else handleHint random s.

(** The clear button: [disabled] when [!selectedCell || isWon]. *)
Definition clearButton (s : Game) : option Game :=
  match selectedCell s with
  | Some _ => if isWon s then Some s else handleNumberInput 0 s
  | None => Some s
  end.

(** [handleClickOutside], for a click on the page background. *)
Definition handleClickOutside (s : Game) : Game :=
  setHighlightedNumber None (setSelectedCell None s).

(** [handleNewGameConfirm()]; the puzzle it asks for arrives later. *)
Definition handleNewGameConfirm (selectedDifficulty : string) (s : Game) : Game :=
  let s := setDifficulty selectedDifficulty s in
  let s := setHighlightedNumber None s in
  setShowScoreModal false s.

(** ** Renders and events *)

Definition is_set {A : Type} (o : option A) : bool :=
  match o with Some _ => true | None => false end.

(** The render after a callback changed the state from [prev] to [next]:
    [useCallback] rebuilds [calculateScore] when one of its dependencies
    changed, and the effect [if (isWon && !finalScore) calculateScore()] runs
    when one of [isWon], [finalScore], [calculateScore] changed. *)
Definition render (prev next : Game) : Game :=
  let rebuilt :=
    negb ((timer prev =? timer next) && (mistakes prev =? mistakes next)
          && (hintsUsed prev =? hintsUsed next)
          && String.eqb (difficulty prev) (difficulty next)) in
  let next :=
    if rebuilt then setMemoCorrectAnswers (correctAnswers next) next else next in
  let effect_runs :=
    rebuilt || negb (Bool.eqb (isWon prev) (isWon next))
    || negb (Bool.eqb (is_set (finalScore prev)) (is_set (finalScore next))) in
  if effect_runs && isWon next && negb (is_set (finalScore next)) then
    let score :=
      calculateScore (memoCorrectAnswers next) (mistakes next) (hintsUsed next)
        (timer next) (difficulty next) in
    setShowScoreModal true (setFinalScore (Some score) next)
  else next.

Inductive event : Type :=
| DataArrived (data : Data.t)
| IntervalTick
| TimeoutFires
| KeyDown (k : key)
| CellClick (rowIndex colIndex : nat)
| NumberButton (num : Z)
| HintButton (random : Q)
| ClearButton
| ClickOutside
| NewGameConfirm (selectedDifficulty : string).

Definition callback (ev : event) (s : Game) : option Game :=
  match ev with
  | DataArrived data => Some (initialize (Some data) s)
  | IntervalTick => Some (tick s)
  | TimeoutFires => timeoutFires s
  | KeyDown k => handleKeyPress k s
  | CellClick r c => cellClick r c s
  | NumberButton num => numberButton num s
  | HintButton random => hintButton random s
  | ClearButton => clearButton s
  | ClickOutside => Some (handleClickOutside s)
  | NewGameConfirm d => Some (handleNewGameConfirm d s)
  end.

(** One event: the callback (an exception leaves the state as it was), then
    the render. *)
Definition exec (ev : event) (s : Game) : Game :=
  render s (default s (callback ev s)).

Fixpoint run (evs : list event) (s : Game) : Game :=
  match evs with
  | [] => s
  | ev :: evs' => run evs' (exec ev s)
  end.

(** The states the component can be in. *)
Inductive reachable : Game → Prop :=
| reachable_mount : reachable mount
| reachable_exec ev s : reachable s → reachable (exec ev s).

(** ** The commands of the session engine

    A command of the specification is the callback together with the win
    check it schedules: the [setTimeout] callback runs before the next
    command is accepted. *)

Definition placeDigit (digit : Z) (s : Game) : Game :=
  exec TimeoutFires (exec (KeyDown (Digit digit)) s).

Definition clearCell (s : Game) : Game :=
  exec TimeoutFires (exec (KeyDown Backspace) s).

Definition requestHint (random : Q) (s : Game) : Game :=
  exec (HintButton random) s.

(** [selectCell(row, col)] and [highlightDigit] are both the click on a
    cell: on an empty cell it selects, on a filled one it highlights. *)
Definition selectCell (row col : nat) (s : Game) : Game :=
  exec (CellClick row col) s.

(** What the score display shows: [finalScore ? finalScore.total :
    calculateLiveScore()]. *)
Definition displayedScore (s : Game) : option Z :=
  match finalScore s with
  | Some f => FinalScore.total f
  | None =>
      calculateLiveScore (correctAnswers s) (mistakes s) (hintsUsed s)
        (difficulty s)
  end.

(** The commands of the specification as one type. [SelectCell] on a filled
    cell is the specification's [highlightDigit]. *)
Inductive command : Type :=
| PlaceDigit (digit : Z)
| ClearCell
| RequestHint (random : Q)
| SelectCell (row col : nat).

Definition perform (cmd : command) (s : Game) : Game :=
  match cmd with
  | PlaceDigit digit => placeDigit digit s
  | ClearCell => clearCell s
  | RequestHint random => requestHint random s
  | SelectCell row col => selectCell row col s
  end.

(** ** Views of a session used by the specification *)

(** [InitialMask[r][c]]: the cell is prefilled ([isInitial] in the render). *)
Definition prefilled (s : Game) (r c : nat) : Prop :=
  ∃ ib v, initialBoard s = Some ib ∧ grid_get ib r c = Some v ∧ v ≠ Num 0.

(** The value of [Board[r][c]], when the board has a row [r]. *)
Definition boardCell (s : Game) (r c : nat) : option value :=
  b ← board s; grid_get b r c.

Definition puzzleCell (s : Game) (r c : nat) : option value :=
  p ← puzzle s; grid_get p r c.

Definition solutionCell (s : Game) (r c : nat) : option value :=
  sol ← solution s; grid_get sol r c.

(** ** Steps of a session *)

Definition is_DataArrived (ev : event) : Prop :=
  match ev with DataArrived _ => True | _ => False end.

(** What one callback other than the arrival of a puzzle may change: the
    puzzle, the solution, the initial board and the stored score stay; a
    counter moves by at most one step; the board changes in at most one cell,
    which was empty in the initial puzzle; [isWon] changes only when the
    deferred win check sets it. *)
Definition session_step (s s' : Game) : Prop :=
  puzzle s' = puzzle s ∧ solution s' = solution s
  ∧ initialBoard s' = initialBoard s
  ∧ finalScore s' = finalScore s
  ∧ mistakes s ≤ mistakes s' ≤ mistakes s + 1
  ∧ (hintsUsed s' = hintsUsed s
     ∨ (hintsUsed s < 3 ∧ hintsUsed s' = hintsUsed s + 1))
  ∧ (board s' = board s
     ∨ ∃ b ib row col v,
         board s = Some b ∧ initialBoard s = Some ib
         ∧ grid_get ib row col = Some (Num 0)
         ∧ board s' = Some (grid_set row col v b))
  ∧ (isWon s' = isWon s
     ∨ ∃ rest,
         s' = setIsTimerRunning false (setIsWon true (setTimeouts rest s)))
  ∧ (correctAnswers s' = correctAnswers s
     ∨ correctAnswers s' = correctAnswers s + 1
     ∨ correctAnswers s' = Z.max 0 (correctAnswers s - 1)).

(** ** Validation, win test and views of the render *)

(** [isValidMove(row, col, value)]: the three duplicate searches, each leaving
    with [false] at the first duplicate. *)
Definition isValidMove (row col : nat) (value : Z) (s : Game) : option bool :=
  match board s with
  | None => Some true
  | Some b =>
      if value =? 0 then Some true else
      all_until range9 (λ j,
        if negb (j =? col)%nat
        then v ← grid_get b row j; Some (v !== Num value)
        else Some true) ≫= λ rowFree : bool,
      if negb rowFree then Some false else
      all_until range9 (λ i,
        if negb (i =? row)%nat
        then v ← grid_get b i col; Some (v !== Num value)
        else Some true) ≫= λ colFree : bool,
      if negb colFree then Some false else
      let boxRow := (row / 3 * 3)%nat in
      let boxCol := (col / 3 * 3)%nat in
      all_until (seq boxRow 3) (λ i,
        all_until (seq boxCol 3) (λ j,
          if negb (i =? row)%nat && negb (j =? col)%nat
          then v ← grid_get b i j; Some (v !== Num value)
          else Some true))
  end.

(** [checkWin()]. *)
Definition checkWin (s : Game) : option bool :=
  match board s, solution s with
  | Some b, Some sol =>
      all_until range9 (λ i,
        all_until range9 (λ j,
          a ← grid_get b i j;
          v ← grid_get sol i j;
          Some (a === v)))
  | _, _ => Some false
  end.

(** [hasError] of the cell rendered at [(rowIndex, colIndex)]. *)
Definition hasError (rowIndex colIndex : nat) (s : Game) : option bool :=
  b ← board s;
  row ← b !! rowIndex;
  cell ← row !! colIndex;
  if cell !== Num 0 then
    sol ← solution s;
    v ← grid_get sol rowIndex colIndex;
    Some (v !== cell)
  else Some false.

(** [isRelated] of the cell rendered at [(rowIndex, colIndex)]; without a
    selection it is [null], which counts as false. *)
Definition isRelated (selectedCell : option (nat * nat))
    (rowIndex colIndex : nat) : bool :=
  match selectedCell with
  | None => false
  | Some (r, c) =>
      (r =? rowIndex)%nat || (c =? colIndex)%nat
      || ((r / 3 =? rowIndex / 3)%nat && (c / 3 =? colIndex / 3)%nat)
  end.

(** [n.toString()] for an integer. *)
Definition Number_toString (n : Z) : string :=
  NilZero.string_of_int (Z.to_int n).

(** [str.padStart(2, "0")]. *)
Definition padStart2 (str : string) : string :=
  match String.length str with
  | 0%nat => "00" ++ str
  | 1%nat => "0" ++ str
  | _ => str
  end.

(** [formatTime(seconds)]. *)
Definition formatTime (seconds : Z) : string :=
  let mins := seconds / 60 in
  let secs := Z.rem seconds 60 in
  padStart2 (Number_toString mins) ++ ":" ++ padStart2 (Number_toString secs).

(** The two decimal digits of a number below 100. *)
Definition two_digits (n : Z) : string :=
  String (ascii_of_nat (48 + Z.to_nat (n / 10)))
    (String (ascii_of_nat (48 + Z.to_nat (n mod 10))) "").

(** The cells of the 9 by 9 grid in the order of the nested loops. *)
Definition cells9 : list (nat * nat) :=
  i ← range9; j ← range9; [(i, j)].

(** Board and initial board have the same number of rows and the same row
    lengths. *)
Definition same_shape (b ib : grid) : Prop :=
  (length <$> b) = (length <$> ib).

(** Two grids are present and agree on every cell of the 9 by 9 grid. *)
Definition boards_equal (b sol : option grid) : Prop :=
  ∃ g h, b = Some g ∧ sol = Some h
    ∧ ∀ i j, (i < 9)%nat → (j < 9)%nat →
        ∃ v, grid_get g i j = Some v ∧ grid_get h i j = Some v.

(** ** A sample session *)

Definition row_of (l : list Z) : list value := Num <$> l.

Definition sampleSolution : grid :=
  row_of <$>
  [ [5; 3; 4; 6; 7; 8; 9; 1; 2];
    [6; 7; 2; 1; 9; 5; 3; 4; 8];
    [1; 9; 8; 3; 4; 2; 5; 6; 7];
    [8; 5; 9; 7; 6; 1; 4; 2; 3];
    [4; 2; 6; 8; 5; 3; 7; 9; 1];
    [7; 1; 3; 9; 2; 4; 8; 5; 6];
    [9; 6; 1; 5; 3; 7; 2; 8; 4];
    [2; 8; 7; 4; 1; 9; 6; 3; 5];
    [3; 4; 5; 2; 8; 6; 1; 7; 9] ].

(** The solution with the cells [(0,0)] and [(0,1)] left open. *)
Definition samplePuzzle : grid :=
  grid_set 0 1 (Num 0) (grid_set 0 0 (Num 0) sampleSolution).

(** The solution with only the cell [(0,0)] left open. *)
Definition lastCellPuzzle : grid :=
  grid_set 0 0 (Num 0) sampleSolution.

Definition sampleGame : Game :=
  exec (DataArrived (Data.Build samplePuzzle sampleSolution)) mount.

Definition lastCellGame : Game :=
  exec (DataArrived (Data.Build lastCellPuzzle sampleSolution)) mount.

(** The sample games with the cell [(0,0)] selected. *)
Definition selectedGame : Game := selectCell 0 0 sampleGame.

Definition lastCellSelected : Game := selectCell 0 0 lastCellGame.

(** The game won by placing the last digit. *)
Definition wonGame : Game := placeDigit 5 lastCellSelected.

(** The sample puzzle with the prefilled cell [(0,2)] changed to 9, where the
    solution has 4. *)
Definition inconsistentPuzzle : grid := grid_set 0 2 (Num 9) samplePuzzle.

(** ** The validation the specification describes

    The specification lets [initialize] reject an input unless both grids are
    9 by 9, the puzzle holds digits 0 to 9, the solution digits 1 to 9, and
    every nonzero puzzle cell agrees with the solution. The component has no
    such check; this predicate states the specification's condition. *)

Definition digit_in (lo hi : Z) (v : value) : bool :=
  match v with
  | Num n => (lo <=? n) && (n <=? hi)
  | Undefined => false
  end.

Definition is_9x9 (g : grid) : bool :=
  (length g =? 9)%nat && forallb (λ row, (length row =? 9)%nat) g.

Definition agrees_with (puzzle solution : grid) : bool :=
  forallb
    (λ rows : list value * list value,
       forallb
         (λ cells : value * value,
            (cells.1 === Num 0) || (cells.1 === cells.2))
         (zip rows.1 rows.2))
    (zip puzzle solution).

Definition spec_valid_input (data : Data.t) : bool :=
  is_9x9 (Data.puzzle data) && is_9x9 (Data.solution data)
  && forallb (forallb (digit_in 0 9)) (Data.puzzle data)
  && forallb (forallb (digit_in 1 9)) (Data.solution data)
  && agrees_with (Data.puzzle data) (Data.solution data).

(** ** The final score the specification describes

    The specification's formula, on the counters of the session:
    round((10000 + correctAnswers*100 - mistakes*300 - hintsUsed*800
    + timeBonus) * multiplier) + perfectBonus, floored at 0. *)

Definition spec_multiplier (difficulty : string) : Q :=
  if String.eqb difficulty "easy" then 1
  else if String.eqb difficulty "medium" then 3 # 2
  else if String.eqb difficulty "hard" then 2
  else if String.eqb difficulty "random" then 5 # 4
  else 1.

Definition spec_time_bonus (t : Z) : Z :=
  if t <? 180 then 3000
  else if t <? 300 then 2000
  else if t <? 600 then 1000
  else if t <? 900 then 500
  else 0.

Definition spec_final_score (correctAnswers mistakes hintsUsed t : Z)
    (difficulty : string) : Z :=
  let perfectBonus := if (mistakes =? 0) && (hintsUsed =? 0) then 2000 else 0 in
  Z.max 0
    (Math_round
       (inject_Z (10000 + correctAnswers * 100 - mistakes * 300
                  - hintsUsed * 800 + spec_time_bonus t)
        * spec_multiplier difficulty)
     + perfectBonus).

(** The sample game played to its end: two ticks of the clock, 5 placed on
    [(0,0)], a third tick, 3 placed on [(0,1)], each placement followed by
    its win check. *)
Definition playedGame : Game :=
  run [CellClick 0 0; IntervalTick; IntervalTick; KeyDown (Digit 5);
       TimeoutFires; IntervalTick; CellClick 0 1; KeyDown (Digit 3);
       TimeoutFires]
    sampleGame.

(** * Properties *)

(** ** The embedding on small inputs *)

Example Math_round_half_up :
  Math_round (5 # 2) = 3 ∧ Math_round (- (5 # 2)) = -2
  ∧ Math_round (7 # 3) = 2.
Proof. by vm_compute. Qed.

Example array_set_past_the_end :
  array_set 4 (Num 7) [Num 1; Num 2]
  = [Num 1; Num 2; Undefined; Undefined; Num 7].
Proof. reflexivity. Qed.

Example multiplier_ignores_case :
  toLowerCase "Hard" = "hard" ∧ multiplier_of "HARD" = Some 2%Q
  ∧ multiplier_of "expert" = Some 1%Q ∧ multiplier_of "constructor" = None.
Proof. by vm_compute. Qed.

Example time_bonus_tiers :
  time_bonus 179 = 3000 ∧ time_bonus 180 = 2000 ∧ time_bonus 299 = 2000
  ∧ time_bonus 300 = 1000 ∧ time_bonus 599 = 1000 ∧ time_bonus 600 = 500
  ∧ time_bonus 899 = 500 ∧ time_bonus 900 = 0.
Proof. by vm_compute. Qed.

Example perfect_easy_game :
  FinalScore.total (calculateScore 51 0 0 150 "easy") = Some 20100.
Proof. reflexivity. Qed.

Example live_score_floor :
  calculateLiveScore 0 40 0 "medium" = Some 0.
Proof. reflexivity. Qed.

Example sample_emptyCells :
  emptyCells samplePuzzle samplePuzzle = Some [(0, 0); (0, 1)]%nat.
Proof. by vm_compute. Qed.

Example sample_isNumberComplete :
  isNumberComplete 5 lastCellSelected = Some false
  ∧ isNumberComplete 5 wonGame = Some true.
Proof. by vm_compute. Qed.

(** Without an initial board [initialBoard[row]] throws, and the event leaves
    the state as it was. *)
Example handleNumberInput_throws :
  handleNumberInput 5 (setInitialBoard None selectedGame) = None
  ∧ exec (KeyDown (Digit 5)) (setInitialBoard None selectedGame)
    = setInitialBoard None selectedGame.
Proof. by vm_compute. Qed.

Example sample_win :
  isWon lastCellSelected = false ∧ isWon wonGame = true
  ∧ isTimerRunning wonGame = false ∧ board wonGame = Some sampleSolution.
Proof. by vm_compute. Qed.

(** ** Values and arrays *)

Lemma strict_eq_true (a b : value) : (a === b) = true ↔ a = b.
Proof.
  destruct a as [|x], b as [|y]; simpl; split; try done.
  - intros H. apply Z.eqb_eq in H. by subst.
  - intros [= ->]. apply Z.eqb_refl.
Qed.

Lemma strict_eq_false (a b : value) : (a === b) = false ↔ a ≠ b.
Proof.
  rewrite <- strict_eq_true. destruct (a === b); split; congruence.
Qed.

Lemma strict_eq_refl (a : value) : (a === a) = true.
Proof. by apply strict_eq_true. Qed.

Lemma get_array_set_eq (j : nat) (x : value) (row : list value) :
  get (array_set j x row) j = x.
Proof.
  unfold get, array_set. case_decide as Hj.
  - by rewrite list_lookup_insert_eq.
  - rewrite lookup_app_r by lia.
    rewrite lookup_app_r by (rewrite length_replicate; lia).
    rewrite length_replicate.
    by replace (j - length row - (j - length row))%nat with 0%nat by lia.
Qed.

Lemma get_array_set_ne (j j' : nat) (x : value) (row : list value) :
  j ≠ j' → get (array_set j x row) j' = get row j'.
Proof.
  intros Hne. unfold get, array_set. case_decide as Hj.
  - by rewrite list_lookup_insert_ne.
  - destruct (decide (j' < length row)%nat) as [Hlt|Hge].
    + by rewrite lookup_app_l.
    + rewrite (lookup_ge_None_2 row j') by lia.
      rewrite lookup_app_r by lia.
      destruct (decide (j' < j)%nat) as [Hlt'|Hge'].
      * rewrite lookup_app_l by (rewrite length_replicate; lia).
        rewrite lookup_replicate_2; [done | lia].
      * rewrite lookup_ge_None_2; [done |].
        rewrite length_app, length_replicate. simpl. lia.
Qed.

Lemma grid_get_set_eq (i j : nat) (x : value) (g : grid) :
  is_Some (g !! i) → grid_get (grid_set i j x g) i j = Some x.
Proof.
  intros [row Hrow]. unfold grid_get, grid_set.
  rewrite list_lookup_alter_eq, Hrow. simpl.
  by rewrite get_array_set_eq.
Qed.

Lemma grid_get_set_ne (i j i' j' : nat) (x : value) (g : grid) :
  (i, j) ≠ (i', j') → grid_get (grid_set i j x g) i' j' = grid_get g i' j'.
Proof.
  intros Hne. unfold grid_get, grid_set.
  destruct (decide (i = i')) as [->|Hi].
  - rewrite list_lookup_alter_eq. destruct (g !! i') as [row|]; [simpl|done].
    rewrite get_array_set_ne; [done | congruence].
  - by rewrite list_lookup_alter_ne.
Qed.

Lemma grid_get_row (g : grid) (i j : nat) (v : value) :
  grid_get g i j = Some v → is_Some (g !! i).
Proof. unfold grid_get. destruct (g !! i); [eauto | done]. Qed.

(** ** Loops *)

(** An invariant of the accumulator of a [for] loop. *)
Lemma for_each_invariant {S : Type} (P : S → Prop) (ks : list nat)
    (body : nat → S → option S) (acc acc' : S) :
  (∀ k a a', k ∈ ks → body k a = Some a' → P a → P a') →
  for_each ks body acc = Some acc' → P acc → P acc'.
Proof.
  revert acc.
  induction ks as [|k ks IH]; intros acc Hbody Hrun Hacc; simpl in Hrun.
  - by simplify_eq.
  - destruct (body k acc) as [a|] eqn:Hk; [|done]. simpl in Hrun.
    eapply IH; [|done|].
    + intros k' a0 a' Hin. apply Hbody. by right.
    + eapply Hbody; [left|done..].
Qed.

Lemma elem_of_range9 (k : nat) : k ∈ range9 → (k < 9)%nat.
Proof. unfold range9. rewrite elem_of_seq. lia. Qed.

(** Every cell collected by [handleHint] lies in the 9 by 9 grid, is empty on
    the board and was empty in the initial puzzle. *)
Lemma emptyCells_sound (b ib : grid) (cells : list (nat * nat)) :
  emptyCells b ib = Some cells →
  ∀ r c, (r, c) ∈ cells →
    (r < 9)%nat ∧ (c < 9)%nat
    ∧ grid_get b r c = Some (Num 0) ∧ grid_get ib r c = Some (Num 0).
Proof.
  unfold emptyCells. intros Hrun.
  set (P := λ acc : list (nat * nat), ∀ r c, (r, c) ∈ acc →
              (r < 9)%nat ∧ (c < 9)%nat
              ∧ grid_get b r c = Some (Num 0) ∧ grid_get ib r c = Some (Num 0)).
  assert (Hinit : P []) by (intros r c Hin; by apply elem_of_nil in Hin).
  refine (for_each_invariant P _ _ _ _ _ Hrun Hinit).
  intros i a a' Hi Hrow Ha. apply elem_of_range9 in Hi.
  refine (for_each_invariant P _ _ _ _ _ Hrow Ha).
  intros j acc acc' Hj Hbody Hacc r c Hin. apply elem_of_range9 in Hj.
  simpl in Hbody.
  destruct (grid_get b i j) as [v|] eqn:Hb; [|done]. simpl in Hbody.
  destruct (v === Num 0) eqn:Hv; [|simplify_eq; by apply Hacc].
  apply strict_eq_true in Hv. subst v.
  destruct (grid_get ib i j) as [w|] eqn:Hib; [|done]. simpl in Hbody.
  destruct (w === Num 0) eqn:Hw; [|simplify_eq; by apply Hacc].
  apply strict_eq_true in Hw. subst w. simplify_eq.
  apply elem_of_app in Hin as [Hin|Hin]; [by apply Hacc|].
  apply list_elem_of_singleton in Hin. by simplify_eq.
Qed.

Lemma index_Z_elem_of {A : Type} (arr : list A) (i : Z) (x : A) :
  index_Z arr i = Some x → x ∈ arr.
Proof.
  unfold index_Z. destruct (i <? 0); [done|].
  intros H. apply list_elem_of_lookup. eauto.
Qed.

(** ** The render changes only what it computes *)

Ltac render_frame := intros; unfold render; repeat case_match; reflexivity.

Lemma render_board p n : board (render p n) = board n.
Proof. render_frame. Qed.
Lemma render_puzzle p n : puzzle (render p n) = puzzle n.
Proof. render_frame. Qed.
Lemma render_solution p n : solution (render p n) = solution n.
Proof. render_frame. Qed.
Lemma render_initialBoard p n : initialBoard (render p n) = initialBoard n.
Proof. render_frame. Qed.
Lemma render_selectedCell p n : selectedCell (render p n) = selectedCell n.
Proof. render_frame. Qed.
Lemma render_timer p n : timer (render p n) = timer n.
Proof. render_frame. Qed.
Lemma render_isTimerRunning p n : isTimerRunning (render p n) = isTimerRunning n.
Proof. render_frame. Qed.
Lemma render_isWon p n : isWon (render p n) = isWon n.
Proof. render_frame. Qed.
Lemma render_mistakes p n : mistakes (render p n) = mistakes n.
Proof. render_frame. Qed.
Lemma render_hintsUsed p n : hintsUsed (render p n) = hintsUsed n.
Proof. render_frame. Qed.
Lemma render_correctAnswers p n : correctAnswers (render p n) = correctAnswers n.
Proof. render_frame. Qed.
Lemma render_difficulty p n : difficulty (render p n) = difficulty n.
Proof. render_frame. Qed.
Lemma render_highlightedNumber p n :
  highlightedNumber (render p n) = highlightedNumber n.
Proof. render_frame. Qed.
Lemma render_timeouts p n : timeouts (render p n) = timeouts n.
Proof. render_frame. Qed.

Create Rewrite HintDb frame.
#[local] Hint Rewrite render_board render_puzzle render_solution
  render_initialBoard render_selectedCell render_timer render_isTimerRunning
  render_isWon render_mistakes render_hintsUsed render_correctAnswers
  render_difficulty render_highlightedNumber render_timeouts : frame.

(** A callback that changes nothing causes no render. *)
Lemma render_same s : render s s = s.
Proof.
  unfold render.
  rewrite !Z.eqb_refl, String.eqb_refl, !Bool.eqb_reflx. reflexivity.
Qed.

Lemma exec_unchanged ev s : callback ev s = Some s → exec ev s = s.
Proof. intros H. unfold exec. rewrite H. apply render_same. Qed.

Lemma exec_throws ev s : callback ev s = None → exec ev s = s.
Proof. intros H. unfold exec. rewrite H. apply render_same. Qed.

(** The score is stored only by a render that sees [isWon] without a
    [finalScore]. *)
Lemma render_finalScore p n :
  finalScore (render p n) = finalScore n
  ∨ (isWon n = true ∧ finalScore n = None
     ∧ ∃ ca, finalScore (render p n)
             = Some (calculateScore ca (mistakes n) (hintsUsed n) (timer n)
                       (difficulty n))).
Proof.
  unfold render. cbv zeta.
  match goal with
  | |- context [if ?c then setMemoCorrectAnswers _ _ else _] =>
      set (rebuilt := c)
  end.
  match goal with
  | |- context [if ?c && isWon ?m && negb (is_set (finalScore ?m)) then _ else _] =>
      set (runs := c); set (next := m)
  end.
  assert (Hnext : finalScore next = finalScore n ∧ isWon next = isWon n
                  ∧ mistakes next = mistakes n ∧ hintsUsed next = hintsUsed n
                  ∧ timer next = timer n ∧ difficulty next = difficulty n)
    by (subst next; by destruct rebuilt).
  destruct Hnext as (Hf & Hw & Hm & Hh & Ht & Hd).
  destruct (runs && isWon next && negb (is_set (finalScore next))) eqn:Hrun.
  - right. apply andb_prop in Hrun as [Hrun Hnone].
    apply andb_prop in Hrun as [_ Hwon].
    rewrite <- Hw, <- Hf, <- Hm, <- Hh, <- Ht, <- Hd.
    split; [done|]. split; [by destruct (finalScore next)|]. simpl. eauto.
  - by left.
Qed.

Lemma render_finalScore_kept p n f :
  finalScore n = Some f → finalScore (render p n) = Some f.
Proof.
  intros Hf. destruct (render_finalScore p n) as [->|(_ & Hnone & _)];
    congruence.
Qed.

Lemma render_finalScore_not_won p n :
  isWon n = false → finalScore (render p n) = finalScore n.
Proof.
  intros Hw. destruct (render_finalScore p n) as [->|(Hwon & _)]; congruence.
Qed.

(** ** What the callbacks do *)

(** [handleNumberInput] either returns early or writes one cell of the board
    that was empty in the initial puzzle, and then changes at most one
    counter, by one. *)
Lemma handleNumberInput_cases value s s' :
  handleNumberInput value s = Some s' →
  s' = s ∨
  ∃ b ib row col old,
    board s = Some b ∧ selectedCell s = Some (row, col) ∧ isWon s = false
    ∧ initialBoard s = Some ib ∧ grid_get ib row col = Some (Num 0)
    ∧ grid_get b row col = Some old
    ∧ ∃ newValue s1,
        s' = setTimeouts
               (timeouts s ++ [(grid_set row col newValue b, solution s)])
               (setHighlightedNumber
                  (if negb (value =? 0) then Some (Num value) else None)
                  (setBoard (Some (grid_set row col newValue b)) s1))
        ∧ ((old = Num value ∧ newValue = Num 0
            ∧ (s1 = s
               ∨ (s1 = setCorrectAnswers (Z.max 0 (correctAnswers s - 1)) s
                  ∧ old ≠ Num 0 ∧ solutionCell s row col = Some old)))
           ∨ (old ≠ Num value ∧ newValue = Num value
              ∧ (s1 = s
                 ∨ (s1 = setCorrectAnswers (correctAnswers s + 1) s
                    ∧ value ≠ 0
                    ∧ solutionCell s row col = Some (Num value))
                 ∨ (s1 = setMistakes (mistakes s + 1) s
                    ∧ value ≠ 0
                    ∧ ∃ v, solutionCell s row col = Some v ∧ v ≠ Num value)))).
Proof.
  intros H. unfold handleNumberInput in H.
  destruct (board s) as [b|] eqn:Hb; [|left; by simplify_eq].
  destruct (selectedCell s) as [[row col]|] eqn:Hsel; [|left; by simplify_eq].
  destruct (isWon s) eqn:Hwon; [left; by simplify_eq|].
  destruct (initialBoard s) as [ib|] eqn:Hib; [|done]. simpl in H.
  destruct (grid_get ib row col) as [initial|] eqn:Hinit; [|done]. simpl in H.
  destruct (initial === Num 0) eqn:Hi0; simpl in H; [|left; by simplify_eq].
  apply strict_eq_true in Hi0. subst initial.
  destruct (grid_get b row col) as [old|] eqn:Hold; [|done]. simpl in H.
  right. exists b, ib, row, col, old. do 6 (split; [done|]).
  assert (Hhl : ∀ t,
    (if negb (value =? 0) then setHighlightedNumber (Some (Num value)) t
     else setHighlightedNumber None t)
    = setHighlightedNumber (if negb (value =? 0) then Some (Num value) else None) t)
    by (intros t; by destruct (negb (value =? 0))).
  destruct (old === Num value) eqn:Htoggle.
  - (* the toggle branch *)
    apply strict_eq_true in Htoggle.
    match type of H with
    | (?wc ≫= _) = _ => destruct wc as [wasCorrect|] eqn:Hwc; [|done]
    end.
    simpl in H. rewrite Hhl in H. simplify_eq.
    destruct wasCorrect; simpl.
    + eexists (Num 0), (setCorrectAnswers (Z.max 0 (correctAnswers s - 1)) s).
      split; [reflexivity|]. left. do 2 (split; [done|]).
      right. split; [done|].
      destruct (Num value === Num 0) eqn:Hz0; simpl in Hwc; [done|].
      apply strict_eq_false in Hz0. split; [done|].
      unfold solutionCell. destruct (solution s) as [sol|]; [|done]. simpl in *.
      destruct (grid_get sol row col) as [v|]; [|done]. simpl in Hwc.
      simplify_eq.
      match goal with
      | H : (_ === _) = true |- _ => apply strict_eq_true in H; by subst
      end.
    + eexists (Num 0), s. split; [reflexivity|]. left. eauto.
  - (* the cell is overwritten *)
    apply strict_eq_false in Htoggle.
    match type of H with
    | (?wc ≫= _) = _ => destruct wc as [wasCorrect|] eqn:Hwc; [|done]
    end.
    simpl in H.
    match type of H with
    | (?m ≫= _) ≫= _ = _ => destruct m as [s1|] eqn:Hs1; [|done]
    end.
    simpl in H. rewrite Hhl in H. simplify_eq.
    assert (Hs1' :
      s1 = s
      ∨ (s1 = setCorrectAnswers (correctAnswers s + 1) s ∧ value ≠ 0
         ∧ solutionCell s row col = Some (Num value))
      ∨ (s1 = setMistakes (mistakes s + 1) s ∧ value ≠ 0
         ∧ ∃ v, solutionCell s row col = Some v ∧ v ≠ Num value)).
    { destruct (value =? 0) eqn:Hv0; simpl in Hs1; [left; by simplify_eq|].
      apply Z.eqb_neq in Hv0.
      unfold solutionCell.
      destruct (solution s) as [sol|]; simpl in *; [|left; by simplify_eq].
      destruct (grid_get sol row col) as [v|]; [|done]. simpl in Hs1.
      destruct (v === Num value) eqn:Hv.
      - apply strict_eq_true in Hv. subst v.
        match type of Hs1 with
        | (if ?c then _ else _) = _ => destruct c
        end; simplify_eq; [right; left; done | by left].
      - apply strict_eq_false in Hv. simplify_eq. right. right. eauto. }
    exists (Num value), s1. split.
    + by destruct Hs1' as [->|[(-> & _)|(-> & _)]].
    + right. eauto.
Qed.

Lemma session_step_refl s : session_step s s.
Proof. unfold session_step. repeat split; auto; lia. Qed.

Lemma handleNumberInput_step value s s' :
  handleNumberInput value s = Some s' → session_step s s'.
Proof.
  intros H. apply handleNumberInput_cases in H as [->|H].
  { apply session_step_refl. }
  destruct H as (b & ib & row & col & old & Hb & Hsel & Hwon & Hib & Hinit
                 & Hold & newValue & s1 & -> & Hs1).
  assert (Hframe : puzzle s1 = puzzle s ∧ solution s1 = solution s
                   ∧ initialBoard s1 = initialBoard s
                   ∧ finalScore s1 = finalScore s
                   ∧ mistakes s ≤ mistakes s1 ≤ mistakes s + 1
                   ∧ hintsUsed s1 = hintsUsed s ∧ isWon s1 = isWon s
                   ∧ (correctAnswers s1 = correctAnswers s
                      ∨ correctAnswers s1 = correctAnswers s + 1
                      ∨ correctAnswers s1 = Z.max 0 (correctAnswers s - 1))).
  { destruct Hs1 as [(_ & _ & [->|(-> & _)])
                    |(_ & _ & [->|[(-> & _)|(-> & _)]])];
      simpl; repeat split; auto; lia. }
  destruct Hframe as (? & ? & ? & ? & ? & ? & ? & ?).
  unfold session_step. simpl.
  repeat split; auto; try lia; try congruence.
  right. exists b, ib, row, col, newValue. auto.
Qed.

Lemma handleHint_cases random s s' :
  handleHint random s = Some s' →
  s' = s ∨
  ∃ b ib sol row col v,
    board s = Some b ∧ initialBoard s = Some ib ∧ solution s = Some sol
    ∧ isWon s = false ∧ hintsUsed s < 3
    ∧ (row < 9)%nat ∧ (col < 9)%nat
    ∧ grid_get b row col = Some (Num 0) ∧ grid_get ib row col = Some (Num 0)
    ∧ grid_get sol row col = Some v
    ∧ s' = setHighlightedNumber (Some v)
             (setSelectedCell (Some (row, col))
                (setHintsUsed (hintsUsed s + 1)
                   (setBoard (Some (grid_set row col v b)) s))).
Proof.
  intros H. unfold handleHint in H.
  destruct (board s) as [b|] eqn:Hb; [|left; by simplify_eq].
  destruct (solution s) as [sol|] eqn:Hsol; [|left; by simplify_eq].
  destruct (initialBoard s) as [ib|] eqn:Hib; [|left; by simplify_eq].
  destruct (isWon s) eqn:Hwon; [left; by simplify_eq|].
  destruct (3 <=? hintsUsed s) eqn:Hbudget; [left; by simplify_eq|].
  apply Z.leb_gt in Hbudget.
  destruct (emptyCells b ib) as [cells|] eqn:Hcells; [|done]. simpl in H.
  destruct (length cells =? 0)%nat; [left; by simplify_eq|].
  match type of H with
  | (?m ≫= _) = _ => destruct m as [[row col]|] eqn:Hpick; [|done]
  end.
  simpl in H.
  destruct (grid_get sol row col) as [v|] eqn:Hv; [|done]. simpl in H.
  apply index_Z_elem_of in Hpick.
  destruct (emptyCells_sound _ _ _ Hcells _ _ Hpick)
    as (Hrow & Hcol & Hempty & Hinit).
  right. exists b, ib, sol, row, col, v. simplify_eq. by repeat split.
Qed.

Lemma handleHint_step random s s' :
  handleHint random s = Some s' → session_step s s'.
Proof.
  intros H. apply handleHint_cases in H as [->|H].
  { apply session_step_refl. }
  destruct H as (b & ib & sol & row & col & v & Hb & Hib & Hsol & Hwon & Hlt
                 & _ & _ & Hempty & Hinit & Hv & ->).
  unfold session_step. simpl.
  repeat split; auto; try lia; try congruence.
  right. exists b, ib, row, col, v. auto.
Qed.

Lemma timeoutFires_cases s s' :
  timeoutFires s = Some s' →
  s' = s ∨
  ∃ newBoard sol rest,
    timeouts s = (newBoard, sol) :: rest
    ∧ (s' = setTimeouts rest s
       ∨ (isComplete newBoard sol = Some true
          ∧ s' = setIsTimerRunning false (setIsWon true (setTimeouts rest s)))).
Proof.
  unfold timeoutFires. intros H.
  destruct (timeouts s) as [|[newBoard sol] rest] eqn:Hq; [left; by simplify_eq|].
  right. exists newBoard, sol, rest. split; [done|].
  destruct (isComplete newBoard sol) as [[]|] eqn:Hc; simplify_eq; auto.
Qed.

Lemma timeoutFires_step s s' : timeoutFires s = Some s' → session_step s s'.
Proof.
  intros H. apply timeoutFires_cases in H as [->|H].
  { apply session_step_refl. }
  destruct H as (nb & sol & rest & Hq & [->|[_ ->]]);
    unfold session_step; repeat split; simpl; auto; try lia.
  right. by exists rest.
Qed.

Lemma cellClick_step r c s s' : cellClick r c s = Some s' → session_step s s'.
Proof.
  unfold cellClick. intros H.
  repeat match type of H with
         | (?m ≫= _) = _ => destruct m; [simpl in H|done]
         end.
  repeat case_match; simplify_eq;
    unfold session_step; simpl; repeat split; auto; lia.
Qed.

Lemma handleKeyPress_step k s s' :
  handleKeyPress k s = Some s' → session_step s s'.
Proof.
  unfold handleKeyPress. intros H.
  destruct (selectedCell s) as [[r c]|];
    [|simplify_eq; apply session_step_refl].
  destruct (isWon s); [simplify_eq; apply session_step_refl|].
  destruct k; try (by eapply handleNumberInput_step);
    case_match; simplify_eq;
    unfold session_step; simpl; repeat split; auto; lia.
Qed.

Lemma numberButton_step num s s' :
  numberButton num s = Some s' → session_step s s'.
Proof.
  unfold numberButton. intros H.
  destruct (isNumberComplete num s) as [done_|]; [simpl in H|done].
  destruct (isWon s || done_); [simplify_eq; apply session_step_refl|].
  destruct (selectedCell s); [|simplify_eq; apply session_step_refl].
  by eapply handleNumberInput_step.
Qed.

Lemma hintButton_step random s s' :
  hintButton random s = Some s' → session_step s s'.
Proof.
  unfold hintButton. intros H.
  destruct (isWon s || (3 <=? hintsUsed s));
    [simplify_eq; apply session_step_refl|].
  by eapply handleHint_step.
Qed.

Lemma clearButton_step s s' : clearButton s = Some s' → session_step s s'.
Proof.
  unfold clearButton. intros H.
  destruct (selectedCell s); [|simplify_eq; apply session_step_refl].
  destruct (isWon s); [simplify_eq; apply session_step_refl|].
  by eapply handleNumberInput_step.
Qed.

Lemma callback_step ev s s' :
  ¬ is_DataArrived ev → callback ev s = Some s' → session_step s s'.
Proof.
  intros Hev H. destruct ev; simpl in *.
  - by destruct Hev.
  - simplify_eq. unfold tick. case_match;
      unfold session_step; simpl; repeat split; auto; lia.
  - by eapply timeoutFires_step.
  - by eapply handleKeyPress_step.
  - by eapply cellClick_step.
  - by eapply numberButton_step.
  - by eapply hintButton_step.
  - by eapply clearButton_step.
  - simplify_eq. unfold session_step; simpl; repeat split; auto; lia.
  - simplify_eq. unfold session_step; simpl; repeat split; auto; lia.
Qed.

(** The same for a whole event, where the render may store the score. *)
Lemma exec_step ev s :
  ¬ is_DataArrived ev →
  puzzle (exec ev s) = puzzle s ∧ solution (exec ev s) = solution s
  ∧ initialBoard (exec ev s) = initialBoard s
  ∧ (∀ f, finalScore s = Some f → finalScore (exec ev s) = Some f)
  ∧ mistakes s ≤ mistakes (exec ev s) ≤ mistakes s + 1
  ∧ (hintsUsed (exec ev s) = hintsUsed s
     ∨ (hintsUsed s < 3 ∧ hintsUsed (exec ev s) = hintsUsed s + 1))
  ∧ (board (exec ev s) = board s
     ∨ ∃ b ib row col v,
         board s = Some b ∧ initialBoard s = Some ib
         ∧ grid_get ib row col = Some (Num 0)
         ∧ board (exec ev s) = Some (grid_set row col v b))
  ∧ (isWon s = true → isWon (exec ev s) = true)
  ∧ (correctAnswers (exec ev s) = correctAnswers s
     ∨ correctAnswers (exec ev s) = correctAnswers s + 1
     ∨ correctAnswers (exec ev s) = Z.max 0 (correctAnswers s - 1)).
Proof.
  intros Hev. unfold exec.
  destruct (callback ev s) as [s'|] eqn:Hcb; simpl.
  - destruct (callback_step _ _ _ Hev Hcb)
      as (Hp & Hs & Hi & Hf & Hm & Hh & Hb & Hw & Hc).
    autorewrite with frame. repeat split; auto; try lia.
    + intros f Hsf. apply render_finalScore_kept. congruence.
    + intros Hwon. destruct Hw as [->|[rest ->]]; done.
  - rewrite render_same. repeat split; auto; lia.
Qed.

(** ** Prefilled cells *)

Lemma exec_prefilled ev s r c :
  ¬ is_DataArrived ev → prefilled s r c →
  prefilled (exec ev s) r c
  ∧ boardCell (exec ev s) r c = boardCell s r c
  ∧ puzzleCell (exec ev s) r c = puzzleCell s r c.
Proof.
  intros Hev (ib & v & Hib & Hv & Hv0).
  destruct (exec_step ev s Hev) as (Hp & _ & Hi & _ & _ & _ & Hb & _).
  split; [|split].
  - exists ib, v. by rewrite Hi.
  - unfold boardCell.
    destruct Hb as [->|(b & ib' & row & col & w & Hbs & Hib' & Hcell & ->)];
      [done|].
    rewrite Hbs. simpl. apply grid_get_set_ne.
    intros [= -> ->]. congruence.
  - unfold puzzleCell. by rewrite Hp.
Qed.

Lemma perform_prefilled cmd s r c :
  prefilled s r c →
  prefilled (perform cmd s) r c
  ∧ boardCell (perform cmd s) r c = boardCell s r c
  ∧ puzzleCell (perform cmd s) r c = puzzleCell s r c.
Proof.
  intros Hpre.
  assert (Htwo : ∀ ev1 ev2, ¬ is_DataArrived ev1 → ¬ is_DataArrived ev2 →
    prefilled (exec ev2 (exec ev1 s)) r c
    ∧ boardCell (exec ev2 (exec ev1 s)) r c = boardCell s r c
    ∧ puzzleCell (exec ev2 (exec ev1 s)) r c = puzzleCell s r c).
  { intros ev1 ev2 H1 H2.
    destruct (exec_prefilled ev1 s r c H1 Hpre) as (Hpre1 & Hb1 & Hp1).
    destruct (exec_prefilled ev2 _ r c H2 Hpre1) as (Hpre2 & Hb2 & Hp2).
    split; [done|]. split; congruence. }
  destruct cmd; simpl.
  - apply Htwo; simpl; tauto.
  - apply Htwo; simpl; tauto.
  - apply exec_prefilled; simpl; tauto.
  - apply exec_prefilled; simpl; tauto.
Qed.

(** C1. For every session and every command (placeDigit, clearCell,
    requestHint, selectCell, highlightDigit), a cell that is prefilled (set in
    InitialMask) and equal to the Puzzle cell is still prefilled and equal to
    the Puzzle cell after the command, and its Board value is the one it had
    before: no command mutates a prefilled cell. The same holds for every
    single event other than the arrival of a new puzzle. *)
Theorem prefilled_cells_never_mutated (s : Game) (r c : nat) :
  prefilled s r c →
  boardCell s r c = puzzleCell s r c →
  (∀ cmd,
     prefilled (perform cmd s) r c
     ∧ boardCell (perform cmd s) r c = boardCell s r c
     ∧ boardCell (perform cmd s) r c = puzzleCell (perform cmd s) r c)
  ∧ (∀ ev, ¬ is_DataArrived ev →
       prefilled (exec ev s) r c
       ∧ boardCell (exec ev s) r c = boardCell s r c
       ∧ boardCell (exec ev s) r c = puzzleCell (exec ev s) r c).
Proof.
  intros Hpre Heq. split.
  - intros cmd.
    destruct (perform_prefilled cmd s r c Hpre) as (Hpre' & Hb & Hp).
    split; [done|]. split; congruence.
  - intros ev Hev.
    destruct (exec_prefilled ev s r c Hev Hpre) as (Hpre' & Hb & Hp).
    split; [done|]. split; congruence.
Qed.

(** The hypothesis of C1 holds in every state the component reaches. *)
Lemma reachable_prefilled_is_puzzle s r c :
  reachable s → prefilled s r c → boardCell s r c = puzzleCell s r c.
Proof.
  intros Hreach. revert r c.
  induction Hreach as [|ev s Hreach IH]; intros r c Hpre.
  - by destruct Hpre as (ib & v & Hib & _).
  - assert (Hcase : is_DataArrived ev ∨ ¬ is_DataArrived ev)
      by (destruct ev; simpl; tauto).
    destruct Hcase as [Hev|Hev].
    + destruct ev; try done.
      unfold boardCell, puzzleCell, exec. simpl.
      by rewrite render_board, render_puzzle.
    + destruct (exec_step _ s Hev) as (_ & _ & Hi & _).
      assert (Hpre0 : prefilled s r c).
      { destruct Hpre as (ib & v & Hib & Hv). exists ib, v. by rewrite <- Hi. }
      destruct (exec_prefilled _ s r c Hev Hpre0) as (_ & Hb & Hp).
      rewrite Hb, Hp. by apply IH.
Qed.

(** ** Placing a digit in an editable cell *)

Section Placement.
Variables (s : Game) (b ib : grid) (row col : nat) (old : value).
Hypothesis Hboard : board s = Some b.
Hypothesis Hselected : selectedCell s = Some (row, col).
Hypothesis Hplaying : isWon s = false.
Hypothesis Hinitial : initialBoard s = Some ib.
Hypothesis Heditable : grid_get ib row col = Some (Num 0).
Hypothesis Hold : grid_get b row col = Some old.

(** The cell holds another value than [digit]: it is overwritten, and the
    placement is counted as correct or as a mistake. *)
Lemma handleNumberInput_overwrite (digit : Z) (v : value) :
  old ≠ Num digit → digit ≠ 0 → solutionCell s row col = Some v →
  handleNumberInput digit s
  = Some (setTimeouts
            (timeouts s ++ [(grid_set row col (Num digit) b, solution s)])
            (setHighlightedNumber (Some (Num digit))
               (setBoard (Some (grid_set row col (Num digit) b))
                  (if v === Num digit
                   then setCorrectAnswers (correctAnswers s + 1) s
                   else setMistakes (mistakes s + 1) s)))).
Proof.
  intros Hne Hv0 Hsol. unfold solutionCell in Hsol.
  destruct (solution s) as [sol|] eqn:Hs; [simpl in Hsol|done].
  unfold handleNumberInput.
  rewrite Hboard, Hselected, Hplaying, Hinitial. simpl.
  rewrite Heditable. simpl. rewrite Hold. simpl.
  rewrite Hs, Hsol. simpl.
  apply strict_eq_false in Hne. apply Z.eqb_neq in Hv0.
  destruct (old === Num 0) eqn:H0; simpl; rewrite Hne, Hv0; simpl;
    (destruct (v === Num digit) eqn:Hv; simpl; [|done]);
    apply strict_eq_true in Hv; subst v; rewrite ?H0, ?Hne; done.
Qed.

(** The cell already holds [digit]: it is cleared, and a correct answer
    loses its point. *)
Lemma handleNumberInput_toggle (digit : Z) (v : value) :
  old = Num digit → digit ≠ 0 → solutionCell s row col = Some v →
  handleNumberInput digit s
  = Some (setTimeouts
            (timeouts s ++ [(grid_set row col (Num 0) b, solution s)])
            (setHighlightedNumber (Some (Num digit))
               (setBoard (Some (grid_set row col (Num 0) b))
                  (if v === Num digit
                   then setCorrectAnswers (Z.max 0 (correctAnswers s - 1)) s
                   else s)))).
Proof.
  intros -> Hv0 Hsol. unfold solutionCell in Hsol.
  destruct (solution s) as [sol|] eqn:Hs; [simpl in Hsol|done].
  unfold handleNumberInput.
  rewrite Hboard, Hselected, Hplaying, Hinitial. simpl.
  rewrite Heditable. simpl. rewrite Hold. simpl.
  rewrite Hs, Hsol. simpl.
  apply Z.eqb_neq in Hv0. rewrite Hv0, Z.eqb_refl. simpl.
  by destruct (v === Num digit).
Qed.

(** The key of a digit reaches [handleNumberInput]. *)
Lemma handleKeyPress_digit (digit : Z) :
  handleKeyPress (Digit digit) s = handleNumberInput digit s.
Proof. unfold handleKeyPress. by rewrite Hselected, Hplaying. Qed.
End Placement.

(** The deferred win check changes nothing but the timer queue and, on a
    complete board, [isWon] and [isTimerRunning]. *)
Lemma exec_TimeoutFires_frame s :
  board (exec TimeoutFires s) = board s
  ∧ solution (exec TimeoutFires s) = solution s
  ∧ initialBoard (exec TimeoutFires s) = initialBoard s
  ∧ selectedCell (exec TimeoutFires s) = selectedCell s
  ∧ mistakes (exec TimeoutFires s) = mistakes s
  ∧ correctAnswers (exec TimeoutFires s) = correctAnswers s
  ∧ hintsUsed (exec TimeoutFires s) = hintsUsed s
  ∧ highlightedNumber (exec TimeoutFires s) = highlightedNumber s.
Proof.
  unfold exec. simpl.
  destruct (timeoutFires s) as [s'|] eqn:H; simpl; autorewrite with frame;
    [|done].
  apply timeoutFires_cases in H as [->|(nb & sol & rest & _ & [->|[_ ->]])];
    done.
Qed.

Lemma exec_isWon_stays ev s :
  ¬ is_DataArrived ev → isWon (exec ev s) = false → isWon s = false.
Proof.
  intros Hev H. destruct (exec_step ev s Hev) as (_&_&_&_&_&_&_& Hw &_).
  destruct (isWon s); [|done]. by rewrite Hw in H.
Qed.

Lemma prefilled_cells_never_mutated_witness :
  prefilled (perform (PlaceDigit 7) selectedGame) 0 2
  ∧ boardCell (perform (PlaceDigit 7) selectedGame) 0 2
    = boardCell selectedGame 0 2
  ∧ boardCell (perform (PlaceDigit 7) selectedGame) 0 2
    = puzzleCell (perform (PlaceDigit 7) selectedGame) 0 2.
Proof.
  assert (Hpre : prefilled selectedGame 0 2).
  { exists samplePuzzle, (Num 4).
    split; [vm_compute; reflexivity|]. split; [vm_compute; reflexivity|].
    discriminate. }
  assert (Heq : boardCell selectedGame 0 2 = puzzleCell selectedGame 0 2)
    by (vm_compute; reflexivity).
  exact (proj1 (prefilled_cells_never_mutated selectedGame 0 2 Hpre Heq)
           (PlaceDigit 7)).
Defined.

(** ** A won game *)

(** A render in which no dependency of [calculateScore] or of the score
    effect changed. *)
Lemma render_idle p n :
  timer p = timer n → mistakes p = mistakes n → hintsUsed p = hintsUsed n →
  difficulty p = difficulty n → isWon p = isWon n →
  finalScore p = finalScore n → render p n = n.
Proof.
  intros Ht Hm Hh Hd Hw Hf. unfold render.
  rewrite Ht, Hm, Hh, Hd, !Z.eqb_refl, String.eqb_refl. simpl.
  rewrite Hw, Hf, !Bool.eqb_reflx. reflexivity.
Qed.

(** The render in which the game is first seen as won stores the score that
    the memoised [calculateScore] computes. *)
Lemma render_win p n :
  timer p = timer n → mistakes p = mistakes n → hintsUsed p = hintsUsed n →
  difficulty p = difficulty n → isWon p = false → isWon n = true →
  finalScore n = None →
  finalScore (render p n)
  = Some (calculateScore (memoCorrectAnswers n) (mistakes n) (hintsUsed n)
            (timer n) (difficulty n)).
Proof.
  intros Ht Hm Hh Hd Hp Hn Hf. unfold render.
  rewrite Ht, Hm, Hh, Hd, !Z.eqb_refl, String.eqb_refl. simpl.
  rewrite Hp, Hn, Hf. reflexivity.
Qed.

(** While a game is not won no score is stored. *)
Lemma reachable_not_won_no_score s :
  reachable s → isWon s = false → finalScore s = None.
Proof.
  induction 1 as [|ev s Hreach IH]; intros Hw; [done|].
  assert (Hcase : is_DataArrived ev ∨ ¬ is_DataArrived ev)
    by (destruct ev; simpl; tauto).
  destruct Hcase as [Hev|Hev].
  - destruct ev; try done. unfold exec. simpl.
    by rewrite render_finalScore_not_won.
  - pose proof (exec_isWon_stays _ _ Hev Hw) as Hw0.
    unfold exec in *. destruct (callback ev s) as [s'|] eqn:Hcb; simpl in *.
    + destruct (callback_step _ _ _ Hev Hcb) as (_&_&_& Hf &_).
      rewrite render_isWon in Hw.
      rewrite render_finalScore_not_won by done. rewrite Hf. by apply IH.
    + rewrite render_same. by apply IH.
Qed.

(** The callbacks that place, clear or hint return at once in a won game. *)
Lemma exec_won_command s ev :
  isWon s = true →
  (∃ k, ev = KeyDown k) ∨ (∃ random, ev = HintButton random)
  ∨ ev = ClearButton ∨ (∃ num, ev = NumberButton num) →
  exec ev s = s.
Proof.
  intros Hw Hev.
  assert (Hcb : default s (callback ev s) = s).
  { destruct Hev as [[k ->]|[[random ->]|[->|[num ->]]]]; simpl.
    - unfold handleKeyPress. rewrite Hw. by destruct (selectedCell s) as [[]|].
    - unfold hintButton. by rewrite Hw.
    - unfold clearButton. rewrite Hw. by destruct (selectedCell s).
    - unfold numberButton. rewrite Hw.
      by destruct (isNumberComplete num s). }
  unfold exec. rewrite Hcb. apply render_same.
Qed.

Lemma cellClick_cases r c s s' :
  cellClick r c s = Some s' →
  ∃ sel hl, s' = setSelectedCell sel (setHighlightedNumber hl s).
Proof.
  unfold cellClick. intros H.
  repeat match type of H with
         | (?m ≫= _) = _ => destruct m; [simpl in H|done]
         end.
  repeat case_match; simplify_eq; by eexists _, _.
Qed.

Lemma exec_won_TimeoutFires s :
  isWon s = true →
  finalScore (exec TimeoutFires s) = finalScore s
  ∧ isWon (exec TimeoutFires s) = true.
Proof.
  intros Hw. unfold exec. simpl.
  destruct (timeoutFires s) as [s'|] eqn:H; simpl; [|by rewrite render_same].
  apply timeoutFires_cases in H as [->|(nb & sol & rest & _ & [->|[_ ->]])].
  - by rewrite render_same.
  - by rewrite render_idle.
  - by rewrite render_idle.
Qed.

Lemma exec_won_CellClick r c s :
  isWon s = true →
  board (exec (CellClick r c) s) = board s
  ∧ mistakes (exec (CellClick r c) s) = mistakes s
  ∧ correctAnswers (exec (CellClick r c) s) = correctAnswers s
  ∧ hintsUsed (exec (CellClick r c) s) = hintsUsed s
  ∧ finalScore (exec (CellClick r c) s) = finalScore s
  ∧ isWon (exec (CellClick r c) s) = true.
Proof.
  intros Hw. unfold exec. simpl.
  destruct (cellClick r c s) as [s'|] eqn:H; simpl; [|by rewrite render_same].
  apply cellClick_cases in H as (sel & hl & ->). by rewrite render_idle.
Qed.

(** The event that makes a game won is the deferred win check, and its
    render stores the score computed from the values of that moment. *)
Lemma exec_win_stores_score s ev :
  reachable s → isWon s = false → isWon (exec ev s) = true →
  finalScore s = None
  ∧ finalScore (exec ev s)
    = Some (calculateScore (memoCorrectAnswers s) (mistakes s) (hintsUsed s)
              (timer s) (difficulty s)).
Proof.
  intros Hreach Hw Hw'.
  pose proof (reachable_not_won_no_score s Hreach Hw) as Hnone.
  split; [done|].
  assert (Hev : ¬ is_DataArrived ev).
  { destruct ev; simpl; try tauto. intros _.
    unfold exec in Hw'. simpl in Hw'. by rewrite render_isWon in Hw'. }
  unfold exec in *. destruct (callback ev s) as [s'|] eqn:Hcb; simpl in *.
  - rewrite render_isWon in Hw'.
    destruct (callback_step _ _ _ Hev Hcb) as (_&_&_&_&_&_&_& Hwon &_).
    destruct Hwon as [Hsame|[rest ->]]; [congruence|].
    by rewrite render_win.
  - rewrite render_same in Hw'. congruence.
Qed.

(** A won game has its score stored. *)
Lemma reachable_won_has_score s :
  reachable s → isWon s = true → ∃ f, finalScore s = Some f.
Proof.
  induction 1 as [|ev s Hreach IH]; intros Hw; [done|].
  destruct (isWon s) eqn:Hw0.
  - destruct (IH eq_refl) as [f Hf]. exists f.
    assert (Hev : ¬ is_DataArrived ev).
    { destruct ev; simpl; try tauto. intros _.
      unfold exec in Hw. simpl in Hw. by rewrite render_isWon in Hw. }
    destruct (exec_step ev s Hev) as (_&_&_& Hkeep &_). by apply Hkeep.
  - destruct (exec_win_stores_score s ev Hreach Hw0 Hw) as [_ Hf]. eauto.
Qed.

(** C6. Won is a fixed point. In every session in which won is true, every
    command (placeDigit, clearCell, requestHint, and also a click on a cell)
    leaves Board, mistakes, correctAnswers, hintsUsed and the ScoreBreakdown
    unchanged and the game won. The ScoreBreakdown is computed once, by the
    event that makes the game won, from the values of that moment, so every
    won game has one; afterwards every event except the arrival of a new
    puzzle keeps the stored breakdown, and the score display reads its
    total. *)
Theorem won_is_a_fixed_point :
  (∀ s cmd, isWon s = true →
     board (perform cmd s) = board s
     ∧ mistakes (perform cmd s) = mistakes s
     ∧ correctAnswers (perform cmd s) = correctAnswers s
     ∧ hintsUsed (perform cmd s) = hintsUsed s
     ∧ finalScore (perform cmd s) = finalScore s
     ∧ isWon (perform cmd s) = true)
  ∧ (∀ s ev, reachable s → isWon s = false → isWon (exec ev s) = true →
       finalScore s = None
       ∧ finalScore (exec ev s)
         = Some (calculateScore (memoCorrectAnswers s) (mistakes s)
                   (hintsUsed s) (timer s) (difficulty s)))
  ∧ (∀ s, reachable s → isWon s = true → ∃ f, finalScore s = Some f)
  ∧ (∀ s f ev, finalScore s = Some f → ¬ is_DataArrived ev →
       finalScore (exec ev s) = Some f
       ∧ displayedScore (exec ev s) = FinalScore.total f).
Proof.
  split; [|split; [|split]].
  - intros s cmd Hw.
    assert (Hkey : ∀ k,
      board (exec TimeoutFires (exec (KeyDown k) s)) = board s
      ∧ mistakes (exec TimeoutFires (exec (KeyDown k) s)) = mistakes s
      ∧ correctAnswers (exec TimeoutFires (exec (KeyDown k) s))
        = correctAnswers s
      ∧ hintsUsed (exec TimeoutFires (exec (KeyDown k) s)) = hintsUsed s
      ∧ finalScore (exec TimeoutFires (exec (KeyDown k) s)) = finalScore s
      ∧ isWon (exec TimeoutFires (exec (KeyDown k) s)) = true).
    { intros k. rewrite (exec_won_command s (KeyDown k)) by eauto.
      destruct (exec_TimeoutFires_frame s) as (Hb &_&_&_& Hm & Hc & Hh &_).
      destruct (exec_won_TimeoutFires s Hw) as [Hf Hw'].
      by repeat split. }
    destruct cmd as [digit| |random|row col]; simpl.
    + apply Hkey.
    + apply Hkey.
    + unfold requestHint.
      rewrite (exec_won_command s (HintButton random)) by eauto 6.
      by repeat split.
    + by apply exec_won_CellClick.
  - apply exec_win_stores_score.
  - apply reachable_won_has_score.
  - intros s f ev Hf Hev.
    destruct (exec_step ev s Hev) as (_&_&_& Hkeep &_).
    pose proof (Hkeep f Hf) as Hf'. split; [done|].
    unfold displayedScore. by rewrite Hf'.
Qed.

Lemma won_is_a_fixed_point_witness :
  isWon wonGame = true
  ∧ board (perform (PlaceDigit 3) wonGame) = board wonGame
  ∧ mistakes (perform (PlaceDigit 3) wonGame) = mistakes wonGame
  ∧ correctAnswers (perform (PlaceDigit 3) wonGame) = correctAnswers wonGame
  ∧ hintsUsed (perform (PlaceDigit 3) wonGame) = hintsUsed wonGame
  ∧ finalScore (perform (PlaceDigit 3) wonGame) = finalScore wonGame
  ∧ isWon (perform (PlaceDigit 3) wonGame) = true.
Proof.
  assert (Hw : isWon wonGame = true) by (vm_compute; reflexivity).
  split; [exact Hw|].
  exact (proj1 won_is_a_fixed_point wonGame (PlaceDigit 3) Hw).
Defined.

(** ** The hint budget *)

Lemma exec_DataArrived_counters data s :
  hintsUsed (exec (DataArrived data) s) = 0
  ∧ mistakes (exec (DataArrived data) s) = 0
  ∧ correctAnswers (exec (DataArrived data) s) = 0.
Proof. unfold exec. simpl. by autorewrite with frame. Qed.

(** C8. In every reachable state 0 <= hintsUsed <= 3. hintsUsed never
    decreases within a session: every event other than the arrival of a new
    puzzle, and every command, leaves it as it is or adds one. A requestHint
    made when hintsUsed is already 3 (or more) changes no state. *)
Theorem hintsUsed_bounded_and_monotone :
  (∀ s, reachable s → 0 ≤ hintsUsed s ≤ 3)
  ∧ (∀ s ev, ¬ is_DataArrived ev → hintsUsed s ≤ hintsUsed (exec ev s))
  ∧ (∀ s cmd, hintsUsed s ≤ hintsUsed (perform cmd s))
  ∧ (∀ s random, 3 ≤ hintsUsed s → requestHint random s = s).
Proof.
  assert (Hmono : ∀ s ev, ¬ is_DataArrived ev →
            hintsUsed s ≤ hintsUsed (exec ev s)).
  { intros s ev Hev.
    destruct (exec_step ev s Hev) as (_&_&_&_&_& [->|[_ ->]] &_); lia. }
  repeat split.
  - induction H as [|ev s Hreach IH]; [done|].
    destruct ev;
      try (destruct (exec_DataArrived_counters data s) as [-> _]; lia);
      match goal with
      | |- context [exec ?e s] =>
          assert (Hev : ¬ is_DataArrived e) by (simpl; tauto);
          destruct (exec_step e s Hev) as (_&_&_&_&_& [->|[? ->]] &_); lia
      end.
  - induction H as [|ev s Hreach IH]; [done|].
    destruct ev;
      try (destruct (exec_DataArrived_counters data s) as [-> _]; lia);
      match goal with
      | |- context [exec ?e s] =>
          assert (Hev : ¬ is_DataArrived e) by (simpl; tauto);
          destruct (exec_step e s Hev) as (_&_&_&_&_& [->|[? ->]] &_); lia
      end.
  - exact Hmono.
  - intros s cmd. destruct cmd; simpl;
      unfold placeDigit, clearCell, requestHint, selectCell;
      repeat match goal with
             | |- context [exec ?e ?t] =>
                 lazymatch goal with
                 | H : hintsUsed t ≤ hintsUsed (exec e t) |- _ => fail
                 | _ => assert (hintsUsed t ≤ hintsUsed (exec e t))
                          by (apply Hmono; simpl; tauto)
                 end
             end; lia.
  - intros s random Hfull. unfold requestHint. apply exec_unchanged. simpl.
    unfold hintButton. apply Z.leb_le in Hfull. rewrite Hfull.
    by rewrite orb_true_r.
Qed.

(** ** The mistakes counter *)

(** C10. Within a session the mistakes counter never decreases: every event
    other than the arrival of a new puzzle, and every command (a toggle-clear
    of a wrong value, clearCell and requestHint among them), leaves it as it is
    or adds one. placeDigit adds exactly one when it writes a digit that
    differs from the solution into the selected editable cell. Only the
    arrival of a new puzzle (initialize) resets it to 0. *)
Theorem mistakes_never_decrease :
  (∀ s ev, ¬ is_DataArrived ev → mistakes s ≤ mistakes (exec ev s))
  ∧ (∀ s cmd, mistakes s ≤ mistakes (perform cmd s))
  ∧ (∀ s digit row col ib old v,
       selectedCell s = Some (row, col) → isWon s = false →
       initialBoard s = Some ib → grid_get ib row col = Some (Num 0) →
       boardCell s row col = Some old → old ≠ Num digit → digit ≠ 0 →
       solutionCell s row col = Some v → v ≠ Num digit →
       mistakes (placeDigit digit s) = mistakes s + 1)
  ∧ (∀ s data, mistakes (exec (DataArrived data) s) = 0).
Proof.
  assert (Hmono : ∀ s ev, ¬ is_DataArrived ev →
            mistakes s ≤ mistakes (exec ev s)).
  { intros s ev Hev. destruct (exec_step ev s Hev) as (_&_&_&_& Hm &_). lia. }
  repeat split.
  - exact Hmono.
  - intros s cmd. destruct cmd; simpl;
      unfold placeDigit, clearCell, requestHint, selectCell;
      repeat match goal with
             | |- context [exec ?e ?t] =>
                 lazymatch goal with
                 | H : mistakes t ≤ mistakes (exec e t) |- _ => fail
                 | _ => assert (mistakes t ≤ mistakes (exec e t))
                          by (apply Hmono; simpl; tauto)
                 end
             end; lia.
  - intros s digit row col ib old v Hsel Hw Hib Hed Hold Hne Hd0 Hsol Hv.
    unfold boardCell in Hold.
    destruct (board s) as [b|] eqn:Hb; [simpl in Hold|done].
    unfold placeDigit.
    destruct (exec_TimeoutFires_frame (exec (KeyDown (Digit digit)) s))
      as (_&_&_&_& -> &_).
    unfold exec. simpl.
    rewrite (handleKeyPress_digit s row col Hsel Hw).
    rewrite (handleNumberInput_overwrite s b ib row col old
               Hb Hsel Hw Hib Hed Hold digit v Hne Hd0 Hsol).
    simpl. rewrite render_mistakes.
    apply strict_eq_false in Hv. by rewrite Hv.
  - intros s data. by destruct (exec_DataArrived_counters data s) as (_ & -> & _).
Qed.

(** ** Hints *)

(** ** Hints are given when a cell is eligible *)

Lemma grid_get_total (g : grid) (i j : nat) :
  (i < length g)%nat → is_Some (grid_get g i j).
Proof.
  intros Hi. unfold grid_get.
  destruct (lookup_lt_is_Some_2 g i Hi) as [row ->]. by eexists.
Qed.

Lemma for_each_cons {S : Type} (k : nat) (ks : list nat)
    (body : nat → S → option S) (acc : S) :
  for_each (k :: ks) body acc = body k acc ≫= for_each ks body.
Proof. reflexivity. Qed.

Lemma bind_Some_eq {A B : Type} (x : A) (f : A → option B) :
  Some x ≫= f = f x.
Proof. reflexivity. Qed.

(** With at least nine rows in both grids the loops of [handleHint] end
    without an exception, and they collect every eligible cell. *)
Lemma emptyCells_complete (b ib : grid) :
  (9 ≤ length b)%nat → (9 ≤ length ib)%nat →
  ∃ cells, emptyCells b ib = Some cells
    ∧ ∀ r c, (r < 9)%nat → (c < 9)%nat →
        grid_get b r c = Some (Num 0) → grid_get ib r c = Some (Num 0) →
        (r, c) ∈ cells.
Proof.
  intros Hb Hib. unfold emptyCells.
  set (inner := λ (i j : nat) (acc : list (nat * nat)),
         grid_get b i j ≫= λ v,
           if v === Num 0
           then grid_get ib i j ≫= λ w,
                  if w === Num 0 then Some (acc ++ [(i, j)]) else Some acc
           else Some acc).
  assert (Hrow : ∀ i js acc, (i < 9)%nat →
    ∃ acc', for_each js (inner i) acc = Some acc'
      ∧ (∀ x, x ∈ acc → x ∈ acc')
      ∧ ∀ j, j ∈ js →
          grid_get b i j = Some (Num 0) → grid_get ib i j = Some (Num 0) →
          (i, j) ∈ acc').
  { intros i js. induction js as [|j js IH]; intros acc Hi; simpl.
    - exists acc. split; [done|]. split; [done|].
      intros j Hj. by apply elem_of_nil in Hj.
    - destruct (grid_get_total b i j) as [v Hv]; [lia|].
      destruct (grid_get_total ib i j) as [w Hw]; [lia|].
      assert (Hstep : ∃ acc1, inner i j acc = Some acc1
                ∧ (∀ x, x ∈ acc → x ∈ acc1)
                ∧ (v = Num 0 → w = Num 0 → (i, j) ∈ acc1)).
      { unfold inner. rewrite Hv. simpl.
        destruct (v === Num 0) eqn:Hv0.
        - rewrite Hw. simpl. destruct (w === Num 0) eqn:Hw0.
          + eexists. split; [done|]. split.
            * intros x Hx. apply elem_of_app. by left.
            * intros _ _. apply elem_of_app. right. by left.
          + exists acc. split; [done|]. split; [done|].
            intros _ ->. by rewrite strict_eq_refl in Hw0.
        - exists acc. split; [done|]. split; [done|].
          intros ->. by rewrite strict_eq_refl in Hv0. }
      destruct Hstep as (acc1 & -> & Hsub1 & Hnew). simpl.
      destruct (IH acc1 Hi) as (acc' & -> & Hsub & Hall).
      exists acc'. split; [done|]. split; [by auto|].
      intros j' Hj' Hbj Hibj.
      apply elem_of_cons in Hj' as [->|Hj']; [|by apply Hall].
      apply Hsub, Hnew; congruence. }
  assert (Hall : ∀ ks acc, (∀ i, i ∈ ks → (i < 9)%nat) →
    ∃ acc', for_each ks (λ i a, for_each range9 (inner i) a) acc = Some acc'
      ∧ (∀ x, x ∈ acc → x ∈ acc')
      ∧ ∀ i j, i ∈ ks → j ∈ range9 →
          grid_get b i j = Some (Num 0) → grid_get ib i j = Some (Num 0) →
          (i, j) ∈ acc').
  { induction ks as [|i ks IH]; intros acc Hks.
    - exists acc. split; [done|]. split; [done|].
      intros i j Hi. by apply elem_of_nil in Hi.
    - rewrite for_each_cons.
      destruct (Hrow i range9 acc) as (acc1 & -> & Hsub1 & Hnew).
      { apply Hks. by left. }
      rewrite bind_Some_eq.
      destruct (IH acc1) as (acc' & -> & Hsub & Hrest).
      { intros i' Hi'. apply Hks. by right. }
      exists acc'. split; [done|]. split; [by auto|].
      intros i' j Hi' Hj Hbj Hibj.
      apply elem_of_cons in Hi' as [->|Hi']; [|by apply Hrest].
      by apply Hsub, Hnew. }
  destruct (Hall range9 []) as (cells & Hcells & _ & Hin).
  { intros i. apply elem_of_range9. }
  exists cells. split; [exact Hcells|].
  intros r c Hr Hc. apply Hin; unfold range9; rewrite elem_of_seq; lia.
Qed.

(** [Math.floor(Math.random() * n)] is an index of an array of [n > 0]
    elements. *)
Lemma random_index_in_range (random : Q) (n : nat) :
  (0 <= random)%Q → (random < 1)%Q → (0 < n)%nat →
  0 ≤ Qfloor (random * inject_Z (Z.of_nat n)) < Z.of_nat n.
Proof.
  intros H0 H1 Hn.
  assert (Hpos : (0 < inject_Z (Z.of_nat n))%Q).
  { change 0%Q with (inject_Z 0). rewrite <- Zlt_Qlt. lia. }
  split.
  - transitivity (Qfloor (inject_Z 0)); [by rewrite Qfloor_Z|].
    apply Qfloor_resp_le. change (inject_Z 0) with 0%Q.
    apply Qmult_le_0_compat; [done|]. by apply Qlt_le_weak.
  - rewrite Zlt_Qlt.
    eapply Qle_lt_trans; [apply Qfloor_le|].
    apply Qlt_le_trans with (1 * inject_Z (Z.of_nat n))%Q;
      [by apply Qmult_lt_compat_r|].
    rewrite Qmult_1_l. apply Qle_refl.
Qed.

Lemma handleHint_progress (random : Q) (s : Game) (b ib sol : grid)
    (r c : nat) :
  board s = Some b → initialBoard s = Some ib → solution s = Some sol →
  isWon s = false → hintsUsed s < 3 →
  (9 ≤ length b)%nat → (9 ≤ length ib)%nat → (9 ≤ length sol)%nat →
  (r < 9)%nat → (c < 9)%nat →
  grid_get b r c = Some (Num 0) → grid_get ib r c = Some (Num 0) →
  (0 <= random)%Q → (random < 1)%Q →
  ∃ s', handleHint random s = Some s' ∧ hintsUsed s' = hintsUsed s + 1.
Proof.
  intros Hb Hib Hsol Hw Hbudget Hlb Hlib Hlsol Hr Hc Hempty Hinit H0 H1.
  unfold handleHint. rewrite Hb, Hsol, Hib, Hw.
  apply Z.leb_gt in Hbudget. rewrite Hbudget.
  destruct (emptyCells_complete b ib Hlb Hlib) as (cells & Hcells & Hin).
  rewrite Hcells, bind_Some_eq.
  pose proof (Hin r c Hr Hc Hempty Hinit) as Hcell.
  assert (Hlen : (0 < length cells)%nat).
  { destruct cells; [by apply elem_of_nil in Hcell|simpl; lia]. }
  destruct (length cells =? 0)%nat eqn:Hz; [apply Nat.eqb_eq in Hz; lia|].
  destruct (random_index_in_range random (length cells) H0 H1 Hlen)
    as [Hlo Hhi].
  set (index := Qfloor (random * inject_Z (Z.of_nat (length cells)))) in *.
  assert (Hpick : is_Some (index_Z cells index)).
  { unfold index_Z. destruct (index <? 0) eqn:Hneg;
      [apply Z.ltb_lt in Hneg; lia|].
    apply lookup_lt_is_Some_2. lia. }
  destruct Hpick as [[row col] Hpick]. fold index. rewrite Hpick.
  rewrite bind_Some_eq.
  pose proof (index_Z_elem_of _ _ _ Hpick) as Hmem.
  destruct (emptyCells_sound _ _ _ Hcells _ _ Hmem) as (Hrow & _).
  destruct (grid_get_total sol row col) as [v Hv]; [lia|].
  rewrite Hv, bind_Some_eq. by eexists.
Qed.

(** C7. For every session state and every random choice, requestHint either
    changes nothing or reveals one cell of the 9 by 9 grid that is empty in
    Board (value 0) and not marked in InitialMask (0 in the initial puzzle):
    it sets that cell, and no other, to Solution[cell], sets selectedCell to
    that cell, sets highlightedDigit to Solution[cell] and adds one to
    hintsUsed. When no cell of the grid is eligible the call changes nothing.
    When the game is not won, fewer than three hints are used, the three
    grids have their nine rows, a cell of the grid is eligible and the random
    number lies in [0,1), the call does reveal such a cell. *)
Theorem requestHint_reveals_an_eligible_cell (random : Q) (s : Game) :
  (requestHint random s = s
   ∨ ∃ b ib sol row col v,
       board s = Some b ∧ initialBoard s = Some ib ∧ solution s = Some sol
       ∧ (row < 9)%nat ∧ (col < 9)%nat
       ∧ grid_get b row col = Some (Num 0)
       ∧ grid_get ib row col = Some (Num 0)
       ∧ grid_get sol row col = Some v
       ∧ board (requestHint random s) = Some (grid_set row col v b)
       ∧ boardCell (requestHint random s) row col = Some v
       ∧ (∀ r c, (r, c) ≠ (row, col) →
            boardCell (requestHint random s) r c = boardCell s r c)
       ∧ selectedCell (requestHint random s) = Some (row, col)
       ∧ highlightedNumber (requestHint random s) = Some v
       ∧ hintsUsed (requestHint random s) = hintsUsed s + 1)
  ∧ ((∀ r c b ib, (r < 9)%nat → (c < 9)%nat →
        board s = Some b → initialBoard s = Some ib →
        ¬ (grid_get b r c = Some (Num 0) ∧ grid_get ib r c = Some (Num 0))) →
     requestHint random s = s)
  ∧ (∀ b ib sol r c,
       board s = Some b → initialBoard s = Some ib → solution s = Some sol →
       isWon s = false → hintsUsed s < 3 →
       (9 ≤ length b)%nat → (9 ≤ length ib)%nat → (9 ≤ length sol)%nat →
       (r < 9)%nat → (c < 9)%nat →
       grid_get b r c = Some (Num 0) → grid_get ib r c = Some (Num 0) →
       (0 <= random)%Q → (random < 1)%Q →
       ∃ row col v,
         (row < 9)%nat ∧ (col < 9)%nat
         ∧ grid_get b row col = Some (Num 0)
         ∧ grid_get ib row col = Some (Num 0)
         ∧ grid_get sol row col = Some v
         ∧ board (requestHint random s) = Some (grid_set row col v b)
         ∧ boardCell (requestHint random s) row col = Some v
         ∧ (∀ r' c', (r', c') ≠ (row, col) →
              boardCell (requestHint random s) r' c' = boardCell s r' c')
         ∧ selectedCell (requestHint random s) = Some (row, col)
         ∧ highlightedNumber (requestHint random s) = Some v
         ∧ hintsUsed (requestHint random s) = hintsUsed s + 1).
Proof.
  assert (Hcases :
    requestHint random s = s
    ∨ ∃ b ib sol row col v,
        board s = Some b ∧ initialBoard s = Some ib ∧ solution s = Some sol
        ∧ (row < 9)%nat ∧ (col < 9)%nat
        ∧ grid_get b row col = Some (Num 0)
        ∧ grid_get ib row col = Some (Num 0)
        ∧ grid_get sol row col = Some v
        ∧ board (requestHint random s) = Some (grid_set row col v b)
        ∧ boardCell (requestHint random s) row col = Some v
        ∧ (∀ r c, (r, c) ≠ (row, col) →
             boardCell (requestHint random s) r c = boardCell s r c)
        ∧ selectedCell (requestHint random s) = Some (row, col)
        ∧ highlightedNumber (requestHint random s) = Some v
        ∧ hintsUsed (requestHint random s) = hintsUsed s + 1).
  { unfold requestHint, exec. simpl. unfold hintButton.
    destruct (isWon s || (3 <=? hintsUsed s)); simpl;
      [left; apply render_same|].
    destruct (handleHint random s) as [s'|] eqn:H; simpl;
      [|left; apply render_same].
    apply handleHint_cases in H as [->|H]; [left; apply render_same|].
    destruct H as (b & ib & sol & row & col & v & Hb & Hib & Hsol & _ & _
                   & Hrow & Hcol & Hempty & Hinit & Hv & ->).
    right. exists b, ib, sol, row, col, v.
    unfold boardCell. autorewrite with frame. simpl.
    repeat split; try done.
    - apply grid_get_set_eq. by eapply grid_get_row.
    - intros r c Hne. rewrite Hb. simpl. by apply grid_get_set_ne. }
  split; [exact Hcases|]. split.
  - intros Hnone. destruct Hcases as [Hsame|H]; [done|].
    destruct H as (b & ib & sol & row & col & v & Hb & Hib & _ & Hrow & Hcol
                   & Hempty & Hinit & _).
    by destruct (Hnone row col b ib Hrow Hcol Hb Hib).
  - intros b ib sol r c Hb Hib Hsol Hw Hbudget Hlb Hlib Hlsol Hr Hc
           Hempty Hinit H0 H1.
    destruct (handleHint_progress random s b ib sol r c Hb Hib Hsol Hw
                Hbudget Hlb Hlib Hlsol Hr Hc Hempty Hinit H0 H1)
      as (s' & Hs' & Hused).
    assert (Hmore : hintsUsed (requestHint random s) = hintsUsed s + 1).
    { unfold requestHint, exec. simpl. unfold hintButton.
      apply Z.leb_gt in Hbudget. rewrite Hw, Hbudget. simpl.
      rewrite Hs'. simpl. by rewrite render_hintsUsed. }
    destruct Hcases as [Hsame|H]; [rewrite Hsame in Hmore; lia|].
    destruct H as (b' & ib' & sol' & row & col & v & Hb' & Hib' & Hsol'
                   & Hrow & Hcol & Hcell & Hinitial & Hv & Hrest).
    simplify_eq. exists row, col, v. by repeat split; try apply Hrest.
Qed.

Lemma requestHint_reveals_an_eligible_cell_witness :
  ∃ row col v,
    (row < 9)%nat ∧ (col < 9)%nat
    ∧ grid_get samplePuzzle row col = Some (Num 0)
    ∧ grid_get samplePuzzle row col = Some (Num 0)
    ∧ grid_get sampleSolution row col = Some v
    ∧ board (requestHint (1 # 2) sampleGame)
      = Some (grid_set row col v samplePuzzle)
    ∧ boardCell (requestHint (1 # 2) sampleGame) row col = Some v
    ∧ (∀ r' c', (r', c') ≠ (row, col) →
         boardCell (requestHint (1 # 2) sampleGame) r' c'
         = boardCell sampleGame r' c')
    ∧ selectedCell (requestHint (1 # 2) sampleGame) = Some (row, col)
    ∧ highlightedNumber (requestHint (1 # 2) sampleGame) = Some v
    ∧ hintsUsed (requestHint (1 # 2) sampleGame) = hintsUsed sampleGame + 1.
Proof.
  assert (Hb : board sampleGame = Some samplePuzzle) by (vm_compute; reflexivity).
  assert (Hib : initialBoard sampleGame = Some samplePuzzle)
    by (vm_compute; reflexivity).
  assert (Hsol : solution sampleGame = Some sampleSolution)
    by (vm_compute; reflexivity).
  assert (Hw : isWon sampleGame = false) by (vm_compute; reflexivity).
  assert (Hbudget : hintsUsed sampleGame < 3) by (vm_compute; reflexivity).
  assert (Hlb : (9 ≤ length samplePuzzle)%nat) by (vm_compute; lia).
  assert (Hlsol : (9 ≤ length sampleSolution)%nat) by (vm_compute; lia).
  assert (Hr : (0 < 9)%nat) by lia.
  assert (Hempty : grid_get samplePuzzle 0 0 = Some (Num 0))
    by (vm_compute; reflexivity).
  assert (H0 : (0 <= 1 # 2)%Q) by (unfold Qle; simpl; lia).
  assert (H1 : (1 # 2 < 1)%Q) by (unfold Qlt; simpl; lia).
  exact (proj2 (proj2 (requestHint_reveals_an_eligible_cell (1 # 2) sampleGame))
           samplePuzzle samplePuzzle sampleSolution 0%nat 0%nat
           Hb Hib Hsol Hw Hbudget Hlb Hlb Hlsol Hr Hr Hempty Hempty H0 H1).
Defined.

(** C3. A hint is not followed by a win check. [handleHint] never sets
    [isWon], never stops the clock and schedules no deferred check; in the
    sample game whose last open cell is filled by a hint the board equals the
    solution while the game is not won, the clock still runs and no score is
    stored, whereas placing the same digit by hand wins the game. *)
Theorem requestHint_makes_no_win_check :
  (∀ random s,
     isWon (requestHint random s) = isWon s
     ∧ isTimerRunning (requestHint random s) = isTimerRunning s
     ∧ timeouts (requestHint random s) = timeouts s)
  ∧ (let hinted := requestHint (1 # 3) lastCellGame in
     board hinted = solution hinted
     ∧ isWon hinted = false
     ∧ isTimerRunning hinted = true
     ∧ finalScore hinted = None
     ∧ timer (exec IntervalTick hinted) = timer hinted + 1)
  ∧ (board wonGame = solution wonGame
     ∧ isWon wonGame = true
     ∧ isTimerRunning wonGame = false
     ∧ is_set (finalScore wonGame) = true
     ∧ timer (exec IntervalTick wonGame) = timer wonGame).
Proof.
  split; [|split].
  - intros random s. unfold requestHint, exec. simpl. unfold hintButton.
    autorewrite with frame.
    destruct (isWon s || (3 <=? hintsUsed s)); [done|].
    destruct (handleHint random s) as [s'|] eqn:H; [simpl|done].
    apply handleHint_cases in H as [->|H]; [done|].
    by destruct H as (b & ib & sol & row & col & v & _ & _ & _ & _ & _ & _
                      & _ & _ & _ & _ & ->).
  - vm_compute. by repeat split.
  - vm_compute. by repeat split.
Qed.

(** ** Initialisation *)

(** C4, as the specification states it, fails: the puzzle whose prefilled
    cell [(0,2)] holds 9 where the solution holds 4 does not pass the
    specification's validation, and the component takes it as the new
    session. *)
Lemma initialize_accepts_inconsistent_puzzle :
  let data := Data.Build inconsistentPuzzle sampleSolution in
  spec_valid_input data = false
  ∧ exec (DataArrived data) wonGame ≠ wonGame
  ∧ board (exec (DataArrived data) wonGame) = Some inconsistentPuzzle
  ∧ boardCell (exec (DataArrived data) wonGame) 0 2 = Some (Num 9)
  ∧ solutionCell (exec (DataArrived data) wonGame) 0 2 = Some (Num 4).
Proof.
  cbv zeta. split; [vm_compute; reflexivity|].
  split; [|by vm_compute].
  intros H. apply (f_equal isWon) in H. vm_compute in H. discriminate.
Qed.

(** C4, amended. The arrival of a puzzle is never rejected: for every input
    pair (puzzle, solution), whatever its shape, digits or consistency,
    Puzzle and Solution become the pair, Board and the initial board become
    copies of puzzle, timer, mistakes, hintsUsed and correctAnswers become 0,
    the game is not won, no cell is selected, no score is stored and the
    clock runs; when no data has arrived the state is unchanged. *)
Theorem initialize_applies_any_data (data : Data.t) (s : Game) :
  let s' := exec (DataArrived data) s in
  puzzle s' = Some (Data.puzzle data)
  ∧ solution s' = Some (Data.solution data)
  ∧ board s' = Some (Data.puzzle data)
  ∧ initialBoard s' = Some (Data.puzzle data)
  ∧ selectedCell s' = None
  ∧ timer s' = 0 ∧ mistakes s' = 0 ∧ hintsUsed s' = 0 ∧ correctAnswers s' = 0
  ∧ isWon s' = false ∧ isTimerRunning s' = true
  ∧ finalScore s' = None
  ∧ initialize None s = s.
Proof.
  cbv zeta. unfold exec. simpl. autorewrite with frame. simpl.
  repeat split. by rewrite render_finalScore_not_won.
Qed.

(** ** The final score *)





(** On the four difficulties of the dialog [calculateScore] computes the
    formula of the specification from the values it reads. *)
Lemma calculateScore_total_is_spec (ca m h t : Z) (d : string) :
  d ∈ ["easy"; "medium"; "hard"; "random"] →
  FinalScore.total (calculateScore ca m h t d)
  = Some (spec_final_score ca m h t d).
Proof.
  intros Hd.
  assert (Hmult : multiplier_of d = Some (spec_multiplier d)).
  { repeat (apply elem_of_cons in Hd as [->|Hd]; [reflexivity|]).
    by apply elem_of_nil in Hd. }
  unfold calculateScore, spec_final_score, apply_multiplier.
  cbv zeta. simpl. rewrite Hmult. simpl.
  unfold time_bonus, spec_time_bonus, BASE_SCORE, CORRECT_ANSWER_BONUS,
    MISTAKE_PENALTY, HINT_PENALTY, PERFECT_BONUS, TIME_BONUS_3MIN,
    TIME_BONUS_5MIN, TIME_BONUS_10MIN, TIME_BONUS_15MIN.
  destruct ((m =? 0) && (h =? 0)); simpl; rewrite ?Z.add_0_r; done.
Qed.

(** C5. The final score a session stores is not the specification's formula
    on the session's counters. The effect that runs at the win calls the
    memoised [calculateScore], whose dependency list leaves [correctAnswers]
    out, so the stored total is the formula with the count of correct answers
    of an earlier render in place of the session's count; every other term
    (mistakes, hints, time bonus, multiplier, perfect bonus, floor) is the
    specification's. In the sample game played with two ticks, a correct
    placement, a third tick and the winning placement, the session ends with
    correctAnswers = 2, no mistakes, no hints, timer 3 and difficulty random:
    the formula gives 18500 and the stored total is 18375. *)
Theorem stored_final_score_misses_correct_answers :
  (∀ s ev, reachable s → isWon s = false → isWon (exec ev s) = true →
     difficulty s ∈ ["easy"; "medium"; "hard"; "random"] →
     finalScore (exec ev s) ≫= FinalScore.total
     = Some (spec_final_score (memoCorrectAnswers s) (mistakes s)
               (hintsUsed s) (timer s) (difficulty s)))
  ∧ (isWon playedGame = true
     ∧ correctAnswers playedGame = 2
     ∧ mistakes playedGame = 0
     ∧ hintsUsed playedGame = 0
     ∧ timer playedGame = 3
     ∧ difficulty playedGame = "random"
     ∧ finalScore playedGame ≫= FinalScore.total = Some 18375
     ∧ spec_final_score 2 0 0 3 "random" = 18500).
Proof.
  split.
  - intros s ev Hreach Hw Hw' Hd.
    destruct (exec_win_stores_score s ev Hreach Hw Hw') as [_ ->]. simpl.
    by apply calculateScore_total_is_spec.
  - vm_compute. by repeat split.
Qed.

(** ** The two branches of placeDigit *)

Section PlaceDigit.
Variables (s : Game) (b ib : grid) (row col : nat) (old v : value)
          (digit : Z).
Hypothesis Hboard : board s = Some b.
Hypothesis Hselected : selectedCell s = Some (row, col).
Hypothesis Hplaying : isWon s = false.
Hypothesis Hinitial : initialBoard s = Some ib.
Hypothesis Heditable : grid_get ib row col = Some (Num 0).
Hypothesis Hold : grid_get b row col = Some old.
Hypothesis Hdigit : digit ≠ 0.
Hypothesis Hsolution : solutionCell s row col = Some v.

(** The fields of a session that a placement and its win check leave alone
    or change together. *)
Let placed (newValue : value) (correct wrong : Z) (s' : Game) : Prop :=
  board s' = Some (grid_set row col newValue b)
  ∧ boardCell s' row col = Some newValue
  ∧ selectedCell s' = Some (row, col)
  ∧ initialBoard s' = Some ib
  ∧ solution s' = solution s
  ∧ hintsUsed s' = hintsUsed s
  ∧ correctAnswers s' = correct
  ∧ mistakes s' = wrong.

Lemma placeDigit_overwrite :
  old ≠ Num digit →
  placed (Num digit)
    (if v === Num digit then correctAnswers s + 1 else correctAnswers s)
    (if v === Num digit then mistakes s else mistakes s + 1)
    (placeDigit digit s).
Proof.
  intros Hne. unfold placed, placeDigit, boardCell.
  destruct (exec_TimeoutFires_frame (exec (KeyDown (Digit digit)) s))
    as (-> & -> & -> & -> & -> & -> & -> & _).
  unfold exec. simpl.
  rewrite (handleKeyPress_digit s row col Hselected Hplaying).
  rewrite (handleNumberInput_overwrite s b ib row col old Hboard Hselected
             Hplaying Hinitial Heditable Hold digit v Hne Hdigit Hsolution).
  simpl. autorewrite with frame. simpl.
  rewrite grid_get_set_eq by (by eapply grid_get_row).
  by destruct (v === Num digit).
Qed.

Lemma placeDigit_toggle :
  old = Num digit →
  placed (Num 0)
    (if v === Num digit then Z.max 0 (correctAnswers s - 1)
     else correctAnswers s)
    (mistakes s)
    (placeDigit digit s).
Proof.
  intros Heq. unfold placed, placeDigit, boardCell.
  destruct (exec_TimeoutFires_frame (exec (KeyDown (Digit digit)) s))
    as (-> & -> & -> & -> & -> & -> & -> & _).
  unfold exec. simpl.
  rewrite (handleKeyPress_digit s row col Hselected Hplaying).
  rewrite (handleNumberInput_toggle s b ib row col old Hboard Hselected
             Hplaying Hinitial Heditable Hold digit v Heq Hdigit Hsolution).
  simpl. autorewrite with frame. simpl.
  rewrite grid_get_set_eq by (by eapply grid_get_row).
  by destruct (v === Num digit).
Qed.
End PlaceDigit.

(** The counter of correct answers is never negative. *)
Lemma reachable_correctAnswers_nonneg s : reachable s → 0 ≤ correctAnswers s.
Proof.
  induction 1 as [|ev s Hreach IH]; [done|].
  assert (Hcase : is_DataArrived ev ∨ ¬ is_DataArrived ev)
    by (destruct ev; simpl; tauto).
  destruct Hcase as [Hev|Hev].
  - destruct ev; try done.
    destruct (exec_DataArrived_counters data s) as (_ & _ & ->). done.
  - destruct (exec_step ev s Hev) as (_&_&_&_&_&_&_&_& [->|[->| ->]]); lia.
Qed.

(** ** Placing the same digit twice *)

(** C2, as the specification states it, fails in two ways. In the sample game
    the wrong digit 7 placed twice on the empty editable cell [(0,0)] returns
    the cell to 0 but leaves mistakes at 1, not at its earlier value 0. In the
    sample game with one open cell the digit 5 placed on that cell wins the
    game, so the second placement is refused: the cell keeps 5 and
    correctAnswers stays 1. *)
Lemma placeDigit_twice_counterexample :
  (boardCell selectedGame 0 0 = Some (Num 0)
   ∧ selectedCell selectedGame = Some (0%nat, 0%nat)
   ∧ mistakes selectedGame = 0
   ∧ boardCell (placeDigit 7 (placeDigit 7 selectedGame)) 0 0 = Some (Num 0)
   ∧ mistakes (placeDigit 7 (placeDigit 7 selectedGame)) = 1)
  ∧ (boardCell lastCellSelected 0 0 = Some (Num 0)
     ∧ selectedCell lastCellSelected = Some (0%nat, 0%nat)
     ∧ correctAnswers lastCellSelected = 0
     ∧ boardCell (placeDigit 5 (placeDigit 5 lastCellSelected)) 0 0
       = Some (Num 5)
     ∧ correctAnswers (placeDigit 5 (placeDigit 5 lastCellSelected)) = 1).
Proof. vm_compute. by repeat split. Qed.

(** C2, amended. For every empty editable selected cell and every digit d in
    [1,9], when the first placeDigit(d) does not win the game, executing
    placeDigit(d) twice in a row returns Board[cell] to 0 and correctAnswers
    to its value from before the first placement; mistakes returns to its
    earlier value when d is the solution digit of the cell and is one higher
    when it is not. *)
Theorem placeDigit_twice (s : Game) (digit : Z) (row col : nat)
    (ib : grid) (v : value) :
  1 ≤ digit ≤ 9 →
  selectedCell s = Some (row, col) →
  initialBoard s = Some ib → grid_get ib row col = Some (Num 0) →
  boardCell s row col = Some (Num 0) →
  solutionCell s row col = Some v →
  0 ≤ correctAnswers s →
  isWon (placeDigit digit s) = false →
  boardCell (placeDigit digit (placeDigit digit s)) row col = Some (Num 0)
  ∧ correctAnswers (placeDigit digit (placeDigit digit s)) = correctAnswers s
  ∧ mistakes (placeDigit digit (placeDigit digit s))
    = (if v === Num digit then mistakes s else mistakes s + 1).
Proof.
  intros Hd Hsel Hib Hed Hempty Hsol Hca Hw1.
  assert (Hd0 : digit ≠ 0) by lia.
  assert (Hw : isWon s = false).
  { unfold placeDigit in Hw1.
    apply exec_isWon_stays in Hw1; [|simpl; tauto].
    apply exec_isWon_stays in Hw1; [done|simpl; tauto]. }
  unfold boardCell in Hempty.
  destruct (board s) as [b|] eqn:Hb; [simpl in Hempty|done].
  assert (Hne : Num 0 ≠ Num digit) by congruence.
  destruct (placeDigit_overwrite s b ib row col (Num 0) v digit
              Hb Hsel Hw Hib Hed Hempty Hd0 Hsol Hne)
    as (Hb1 & Hcell1 & Hsel1 & Hib1 & Hsol1 & _ & Hca1 & Hm1).
  assert (Hsolcell1 : solutionCell (placeDigit digit s) row col = Some v)
    by (unfold solutionCell in *; by rewrite Hsol1).
  assert (Hold1 : grid_get (grid_set row col (Num digit) b) row col
                  = Some (Num digit))
    by (apply grid_get_set_eq; by eapply grid_get_row).
  destruct (placeDigit_toggle (placeDigit digit s) _ ib row col (Num digit) v
              digit Hb1 Hsel1 Hw1 Hib1 Hed Hold1 Hd0 Hsolcell1 eq_refl)
    as (_ & Hcell2 & _ & _ & _ & _ & Hca2 & Hm2).
  split; [done|]. rewrite Hca2, Hm2, Hca1, Hm1.
  destruct (v === Num digit); split; try done; lia.
Qed.

Lemma placeDigit_twice_witness :
  boardCell (placeDigit 5 (placeDigit 5 selectedGame)) 0 0 = Some (Num 0)
  ∧ correctAnswers (placeDigit 5 (placeDigit 5 selectedGame))
    = correctAnswers selectedGame
  ∧ mistakes (placeDigit 5 (placeDigit 5 selectedGame))
    = (if Num 5 === Num 5 then mistakes selectedGame
       else mistakes selectedGame + 1).
Proof.
  apply (placeDigit_twice selectedGame 5 0 0 samplePuzzle (Num 5));
    first [lia | vm_compute; reflexivity | vm_compute; discriminate].
Defined.

(** ** Counting correct answers *)

(** C9, as the specification states it, fails. In the sample game the cell
    [(0,0)] holds its correct digit 5 after one placement, with
    correctAnswers 1; placeDigit(7) then overwrites the cell with 7 without
    going through the toggle-clear branch, and placing 5 again brings
    correctAnswers to 2 although one cell holds a correct answer. *)
Lemma correct_cell_overwritten_counterexample :
  let held := placeDigit 5 selectedGame in
  boardCell held 0 0 = Some (Num 5)
  ∧ solutionCell held 0 0 = Some (Num 5)
  ∧ correctAnswers held = 1
  ∧ boardCell (placeDigit 7 held) 0 0 = Some (Num 7)
  ∧ correctAnswers (placeDigit 7 held) = 1
  ∧ boardCell (placeDigit 5 (placeDigit 7 held)) 0 0 = Some (Num 5)
  ∧ correctAnswers (placeDigit 5 (placeDigit 7 held)) = 2.
Proof. vm_compute. by repeat split. Qed.

(** C9, amended. placeDigit raises correctAnswers, by exactly one, only when
    it writes the solution digit over a cell value that was empty or
    incorrect. A cell that holds its correct digit is not protected:
    placeDigit of the same digit clears it (the toggle-clear branch, which
    lowers correctAnswers by one, floored at 0), and placeDigit of a
    different digit overwrites it and counts a mistake. *)
Theorem placeDigit_counts_correct_placements :
  (∀ s digit,
     0 ≤ correctAnswers s →
     correctAnswers (placeDigit digit s) ≤ correctAnswers s + 1
     ∧ (correctAnswers (placeDigit digit s) = correctAnswers s + 1 →
        ∃ row col old,
          selectedCell s = Some (row, col)
          ∧ boardCell s row col = Some old
          ∧ solutionCell s row col = Some (Num digit)
          ∧ old ≠ Num digit
          ∧ board (placeDigit digit s)
            = grid_set row col (Num digit) <$> board s))
  ∧ (∀ s digit row col ib,
       selectedCell s = Some (row, col) → isWon s = false →
       initialBoard s = Some ib → grid_get ib row col = Some (Num 0) →
       digit ≠ 0 →
       boardCell s row col = Some (Num digit) →
       solutionCell s row col = Some (Num digit) →
       boardCell (placeDigit digit s) row col = Some (Num 0)
       ∧ correctAnswers (placeDigit digit s)
         = Z.max 0 (correctAnswers s - 1))
  ∧ (∀ s digit row col ib v,
       selectedCell s = Some (row, col) → isWon s = false →
       initialBoard s = Some ib → grid_get ib row col = Some (Num 0) →
       digit ≠ 0 →
       boardCell s row col = Some v →
       solutionCell s row col = Some v →
       v ≠ Num digit →
       boardCell (placeDigit digit s) row col = Some (Num digit)
       ∧ mistakes (placeDigit digit s) = mistakes s + 1).
Proof.
  split; [|split].
  - intros s digit Hca. unfold placeDigit.
    destruct (exec_TimeoutFires_frame (exec (KeyDown (Digit digit)) s))
      as (-> & _ & _ & _ & _ & -> & _).
    unfold exec. simpl. autorewrite with frame.
    unfold handleKeyPress.
    destruct (selectedCell s) as [[row col]|] eqn:Hsel; simpl; [|lia].
    destruct (isWon s) eqn:Hw; simpl; [lia|].
    destruct (handleNumberInput digit s) as [s'|] eqn:H; simpl; [|lia].
    apply handleNumberInput_cases in H as [->|H]; [lia|].
    destruct H as (b & ib & r & c & old & Hb & Hsel' & _ & _ & _ & Hold
                   & newValue & s1 & -> & Hs1).
    simplify_eq. simpl.
    destruct Hs1 as [(_ & _ & [->|(-> & _)])
                    |(Hne & -> & [->|[(-> & _ & Hsol)|(-> & _)]])];
      simpl; split; try lia.
    intros _. exists row, col, old. unfold boardCell. rewrite Hb. simpl.
    by repeat split.
  - intros s digit row col ib Hsel Hw Hib Hed Hd0 Hcell Hsol.
    unfold boardCell in Hcell.
    destruct (board s) as [b|] eqn:Hb; [simpl in Hcell|done].
    destruct (placeDigit_toggle s b ib row col (Num digit) (Num digit) digit
                Hb Hsel Hw Hib Hed Hcell Hd0 Hsol eq_refl)
      as (_ & Hcell' & _ & _ & _ & _ & Hca & _).
    split; [done|]. by rewrite Hca, strict_eq_refl.
  - intros s digit row col ib v Hsel Hw Hib Hed Hd0 Hcell Hsol Hne.
    unfold boardCell in Hcell.
    destruct (board s) as [b|] eqn:Hb; [simpl in Hcell|done].
    destruct (placeDigit_overwrite s b ib row col v v digit
                Hb Hsel Hw Hib Hed Hcell Hd0 Hsol Hne)
      as (_ & Hcell' & _ & _ & _ & _ & _ & Hm).
    split; [done|]. rewrite Hm.
    apply strict_eq_false in Hne. by rewrite Hne.
Qed.

Lemma placeDigit_counts_correct_placements_witness :
  boardCell (placeDigit 7 (placeDigit 5 selectedGame)) 0 0 = Some (Num 7)
  ∧ mistakes (placeDigit 7 (placeDigit 5 selectedGame))
    = mistakes (placeDigit 5 selectedGame) + 1.
Proof.
  apply (proj2 (proj2 placeDigit_counts_correct_placements)
           (placeDigit 5 selectedGame) 7 0%nat 0%nat samplePuzzle (Num 5));
    first [lia | vm_compute; reflexivity | vm_compute; discriminate
          | discriminate].
Defined.

Lemma mistakes_never_decrease_witness :
  mistakes (placeDigit 7 selectedGame) = mistakes selectedGame + 1.
Proof.
  apply (proj1 (proj2 (proj2 mistakes_never_decrease))
           selectedGame 7 0%nat 0%nat samplePuzzle (Num 0) (Num 5));
    first [lia | vm_compute; reflexivity | vm_compute; discriminate
          | discriminate].
Defined.

Lemma hintsUsed_bounded_and_monotone_witness :
  0 ≤ hintsUsed (requestHint (1 # 3) sampleGame) ≤ 3.
Proof.
  apply (proj1 hintsUsed_bounded_and_monotone).
  unfold requestHint, sampleGame. do 2 apply reachable_exec.
  apply reachable_mount.
Defined.

(** ** The score stored at the win *)

(** The breakdown stored at the win is computed by the memoised
    [calculateScore], whose dependency list leaves [correctAnswers] out: its
    [correctAnswers] is the value of the last render in which [timer],
    [mistakes], [hintsUsed] or [difficulty] changed. In the sample game won by
    one placement before the first tick of the clock the session counts one
    correct answer and the stored breakdown counts none; when a tick falls
    between the placement and its win check the breakdown counts it. *)
Theorem final_score_reads_memoised_correctAnswers :
  (∀ s ev, reachable s → isWon s = false → isWon (exec ev s) = true →
     ∃ f, finalScore (exec ev s) = Some f
          ∧ FinalScore.correctAnswers f = memoCorrectAnswers s
          ∧ FinalScore.total f
            = FinalScore.total
                (calculateScore (memoCorrectAnswers s) (mistakes s)
                   (hintsUsed s) (timer s) (difficulty s)))
  ∧ (correctAnswers wonGame = 1
     ∧ (FinalScore.correctAnswers <$> finalScore wonGame) = Some 0
     ∧ (finalScore wonGame ≫= FinalScore.total) = Some 18250
     ∧ FinalScore.total (calculateScore 1 0 0 0 "random") = Some 18375)
  ∧ (let ticked :=
       run [KeyDown (Digit 5); IntervalTick; TimeoutFires] lastCellSelected in
     isWon ticked = true
     ∧ correctAnswers ticked = 1
     ∧ (FinalScore.correctAnswers <$> finalScore ticked) = Some 1).
Proof.
  split; [|split].
  - intros s ev Hreach Hw Hw'.
    destruct (exec_win_stores_score s ev Hreach Hw Hw') as [_ Hf].
    eexists. split; [exact Hf|]. by split.
  - vm_compute. by repeat split.
  - vm_compute. by repeat split.
Qed.

(** ** Loops that leave early *)

Lemma all_until_true (ks : list nat) (test : nat → option bool) :
  all_until ks test = Some true ↔ ∀ k, k ∈ ks → test k = Some true.
Proof.
  induction ks as [|k ks IH]; simpl.
  - split; [|done]. intros _ k Hk. by apply elem_of_nil in Hk.
  - split.
    + intros H. destruct (test k) as [[]|] eqn:Hk; simpl in H; try done.
      intros k' Hk'. apply elem_of_cons in Hk' as [->|Hk']; [done|].
      by apply IH.
    + intros H. rewrite (H k) by left. simpl. apply IH.
      intros k' Hk'. apply H. by right.
Qed.

Lemma all_until_total (ks : list nat) (test : nat → option bool) :
  (∀ k, k ∈ ks → is_Some (test k)) → is_Some (all_until ks test).
Proof.
  induction ks as [|k ks IH]; simpl; intros H; [by eexists|].
  destruct (H k) as [[] Hk]; [left| |]; rewrite Hk; simpl; [|by eexists].
  apply IH. intros k' Hk'. apply H. by right.
Qed.

Lemma elem_of_range9_iff (k : nat) : k ∈ range9 ↔ (k < 9)%nat.
Proof. unfold range9. rewrite elem_of_seq. lia. Qed.

(** ** The win test *)

Lemma all_cells_equal (g : grid) (sol : option grid) :
  all_until range9 (λ i,
    all_until range9 (λ j,
      a ← grid_get g i j; h ← sol; v ← grid_get h i j; Some (a === v)))
  = Some true
  ↔ boards_equal (Some g) sol.
Proof.
  rewrite all_until_true. split.
  - intros H.
    assert (Hsol : ∃ h, sol = Some h).
    { specialize (H 0%nat ltac:(by apply elem_of_range9_iff; lia)).
      rewrite all_until_true in H.
      specialize (H 0%nat ltac:(by apply elem_of_range9_iff; lia)).
      destruct sol as [h|]; [by eexists|].
      by destruct (grid_get g 0 0). }
    destruct Hsol as [h ->]. exists g, h. do 2 (split; [done|]).
    intros i j Hi Hj.
    specialize (H i ltac:(by apply elem_of_range9_iff)).
    rewrite all_until_true in H.
    specialize (H j ltac:(by apply elem_of_range9_iff)). simpl in H.
    destruct (grid_get g i j) as [a|]; [simpl in H|done].
    destruct (grid_get h i j) as [v|]; [simpl in H|done].
    simplify_eq. apply strict_eq_true in H. subst. by exists v.
  - intros (g' & h & [= <-] & -> & H) i Hi.
    rewrite all_until_true. intros j Hj.
    destruct (H i j) as (v & -> & Hv); [by apply elem_of_range9_iff..|].
    simpl. rewrite Hv. simpl. by rewrite strict_eq_refl.
Qed.

Lemma checkWin_boards_equal s :
  checkWin s = Some true ↔ boards_equal (board s) (solution s).
Proof.
  unfold checkWin.
  destruct (board s) as [b|] eqn:Hb.
  - destruct (solution s) as [sol|] eqn:Hs.
    + rewrite <- all_cells_equal. simpl. done.
    + split; [done|]. by intros (g & h & _ & ? & _).
  - split; [done|]. by intros (g & h & ? & _).
Qed.

Lemma isComplete_boards_equal newBoard sol :
  isComplete newBoard sol = Some true ↔ boards_equal (Some newBoard) sol.
Proof. unfold isComplete. apply all_cells_equal. Qed.

Lemma isComplete_checkWin s b :
  board s = Some b →
  isComplete b (solution s) = Some true ↔ checkWin s = Some true.
Proof.
  intros Hb. rewrite isComplete_boards_equal, checkWin_boards_equal.
  by rewrite Hb.
Qed.

(** [checkWin] returns true exactly when board and solution are loaded
    and agree on all 81 cells, and the loops of the deferred check of
    [handleNumberInput] decide the same for the board and solution they
    close over, so the two win tests never disagree. *)
Theorem checkWin_iff_boards_equal :
  (∀ s, checkWin s = Some true ↔ boards_equal (board s) (solution s))
  ∧ (∀ newBoard sol,
       isComplete newBoard sol = Some true ↔ boards_equal (Some newBoard) sol)
  ∧ (∀ s b, board s = Some b →
       (isComplete b (solution s) = Some true ↔ checkWin s = Some true)).
Proof.
  split; [exact checkWin_boards_equal|].
  split; [exact isComplete_boards_equal|exact isComplete_checkWin].
Qed.

(** ** The deferred win check of a key press *)



Lemma exec_TimeoutFires_head s newBoard sol rest :
  timeouts s = (newBoard, sol) :: rest → isWon s = false →
  (isWon (exec TimeoutFires s) = true ↔ isComplete newBoard sol = Some true)
  ∧ timeouts (exec TimeoutFires s) = rest
  ∧ (isComplete newBoard sol = Some true →
     isTimerRunning (exec TimeoutFires s) = false).
Proof.
  intros Hq Hw. unfold exec. simpl. autorewrite with frame.
  unfold timeoutFires. rewrite Hq.
  destruct (isComplete newBoard sol) as [[]|]; simpl; rewrite ?Hw;
    split; try done; split; done.
Qed.




(** ** A second press before the check of the first *)

Section KeyRepeat.
Variables (s : Game) (b ib : grid) (row col : nat) (old v : value)
          (digit : Z).
Hypothesis Hboard : board s = Some b.
Hypothesis Hselected : selectedCell s = Some (row, col).
Hypothesis Hplaying : isWon s = false.
Hypothesis Hinitial : initialBoard s = Some ib.
Hypothesis Heditable : grid_get ib row col = Some (Num 0).
Hypothesis Hold : grid_get b row col = Some old.
Hypothesis Hdigit : digit ≠ 0.
Hypothesis Hsolution : solutionCell s row col = Some v.

(** The state a digit key leaves before its deferred check has run. *)
Lemma exec_digit_key :
  let newValue := if old === Num digit then Num 0 else Num digit in
  let s' := exec (KeyDown (Digit digit)) s in
  board s' = Some (grid_set row col newValue b)
  ∧ selectedCell s' = Some (row, col)
  ∧ isWon s' = false
  ∧ initialBoard s' = Some ib
  ∧ solution s' = solution s
  ∧ timeouts s'
    = timeouts s ++ [(grid_set row col newValue b, solution s)].
Proof.
  cbv zeta. unfold exec. simpl.
  rewrite (handleKeyPress_digit s row col Hselected Hplaying).
  destruct (old === Num digit) eqn:Hcase.
  - apply strict_eq_true in Hcase.
    rewrite (handleNumberInput_toggle s b ib row col old Hboard Hselected
               Hplaying Hinitial Heditable Hold digit v Hcase Hdigit Hsolution).
    simpl. autorewrite with frame. simpl.
    by destruct (v === Num digit).
  - apply strict_eq_false in Hcase.
    rewrite (handleNumberInput_overwrite s b ib row col old Hboard Hselected
               Hplaying Hinitial Heditable Hold digit v Hcase Hdigit Hsolution).
    simpl. autorewrite with frame. simpl.
    by destruct (v === Num digit).
Qed.
End KeyRepeat.

(** The deferred check judges the board of the press that scheduled it,
    not the current one. When a digit key completes the board and the same
    key is pressed again before that check has run, the
    second press clears the cell, and the check of the first press still
    marks the game as won and stops the clock: the game is won with an empty
    cell on the board. *)
Theorem repeated_key_wins_with_empty_cell (s : Game) (b ib : grid)
    (row col : nat) (v : value) (digit : Z) :
  board s = Some b → selectedCell s = Some (row, col) → isWon s = false →
  initialBoard s = Some ib → grid_get ib row col = Some (Num 0) →
  grid_get b row col = Some (Num 0) → digit ≠ 0 →
  solutionCell s row col = Some v → timeouts s = [] →
  boards_equal (Some (grid_set row col (Num digit) b)) (solution s) →
  let s' := run [KeyDown (Digit digit); KeyDown (Digit digit); TimeoutFires] s in
  isWon s' = true ∧ isTimerRunning s' = false
  ∧ boardCell s' row col = Some (Num 0).
Proof.
  intros Hb Hsel Hw Hib Hed Hold Hd Hsol Hq Hfull. cbv zeta.
  unfold run.
  assert (Hne : (Num 0 === Num digit) = false)
    by (apply strict_eq_false; congruence).
  pose proof (exec_digit_key s b ib row col (Num 0) v digit
                Hb Hsel Hw Hib Hed Hold Hd Hsol) as H1.
  cbv zeta in H1. rewrite Hne, Hq in H1. simpl in H1.
  destruct H1 as (Hb1 & Hsel1 & Hw1 & Hib1 & Hsol1 & Hq1).
  set (s1 := exec (KeyDown (Digit digit)) s) in *.
  assert (Hold1 : grid_get (grid_set row col (Num digit) b) row col
                  = Some (Num digit))
    by (apply grid_get_set_eq; by eapply grid_get_row).
  assert (Hsolcell1 : solutionCell s1 row col = Some v)
    by (unfold solutionCell in *; by rewrite Hsol1).
  pose proof (exec_digit_key s1 _ ib row col (Num digit) v digit
                Hb1 Hsel1 Hw1 Hib1 Hed Hold1 Hd Hsolcell1) as H2.
  cbv zeta in H2. rewrite strict_eq_refl, Hq1, Hsol1 in H2. simpl in H2.
  destruct H2 as (Hb2 & _ & Hw2 & _ & _ & Hq2).
  set (s2 := exec (KeyDown (Digit digit)) s1) in *.
  destruct (exec_TimeoutFires_head s2 _ _ _ Hq2 Hw2) as (Hwon & _ & Hclock).
  apply isComplete_boards_equal in Hfull.
  split; [by apply Hwon|]. split; [by apply Hclock|].
  unfold boardCell.
  destruct (exec_TimeoutFires_frame s2) as (-> & _).
  rewrite Hb2. simpl. apply grid_get_set_eq.
  by eapply grid_get_row.
Qed.

Lemma repeated_key_wins_with_empty_cell_witness :
  let s' := run [KeyDown (Digit 5); KeyDown (Digit 5); TimeoutFires]
              lastCellSelected in
  isWon s' = true ∧ isTimerRunning s' = false
  ∧ boardCell s' 0 0 = Some (Num 0).
Proof.
  assert (Hb : board lastCellSelected = Some lastCellPuzzle)
    by (vm_compute; reflexivity).
  assert (Hsel : selectedCell lastCellSelected = Some (0, 0)%nat)
    by (vm_compute; reflexivity).
  assert (Hw : isWon lastCellSelected = false) by (vm_compute; reflexivity).
  assert (Hib : initialBoard lastCellSelected = Some lastCellPuzzle)
    by (vm_compute; reflexivity).
  assert (Hed : grid_get lastCellPuzzle 0 0 = Some (Num 0))
    by (vm_compute; reflexivity).
  assert (Hd : 5 ≠ 0) by lia.
  assert (Hsol : solutionCell lastCellSelected 0 0 = Some (Num 5))
    by (vm_compute; reflexivity).
  assert (Hq : timeouts lastCellSelected = []) by (vm_compute; reflexivity).
  assert (Hfull : boards_equal (Some (grid_set 0 0 (Num 5) lastCellPuzzle))
                    (solution lastCellSelected))
    by (apply isComplete_boards_equal; vm_compute; reflexivity).
  exact (repeated_key_wins_with_empty_cell lastCellSelected lastCellPuzzle
           lastCellPuzzle 0 0 (Num 5) 5 Hb Hsel Hw Hib Hed Hed Hd Hsol Hq
           Hfull).
Defined.

(** ** Error marks *)

(** A board that passes the win test shows no error mark: when [checkWin]
    holds, [hasError] is true for no cell of the grid. *)
Theorem complete_board_shows_no_error (s : Game) (r c : nat) :
  checkWin s = Some true → (r < 9)%nat → (c < 9)%nat →
  hasError r c s ≠ Some true.
Proof.
  intros Hwin Hr Hc. apply checkWin_boards_equal in Hwin.
  destruct Hwin as (g & h & Hg & Hh & Hcells).
  destruct (Hcells r c Hr Hc) as (v & Hgv & Hhv).
  unfold hasError. rewrite Hg, Hh. simpl.
  unfold grid_get in Hgv.
  destruct (g !! r) as [row|] eqn:Hrow; [simpl in *|done].
  unfold get in Hgv.
  destruct (row !! c) as [cell|] eqn:Hcell; [simpl in *|done].
  injection Hgv as <-.
  destruct (cell !== Num 0); [|done].
  rewrite Hhv. simpl. by rewrite strict_eq_refl.
Qed.

Lemma complete_board_shows_no_error_witness :
  hasError 0 0 wonGame ≠ Some true.
Proof.
  apply (complete_board_shows_no_error wonGame 0 0);
    [vm_compute; reflexivity|lia|lia].
Defined.

(** ** The rule check *)

Lemma all_until_spec (ks : list nat) (test : nat → option bool)
    (P : nat → Prop) :
  (∀ k, k ∈ ks → ∃ r, test k = Some r ∧ (r = true ↔ P k)) →
  ∃ r, all_until ks test = Some r ∧ (r = true ↔ ∀ k, k ∈ ks → P k).
Proof.
  induction ks as [|k ks IH]; intros H; simpl.
  - exists true. split; [done|]. split; [|done].
    intros _ k Hk. by apply elem_of_nil in Hk.
  - destruct (H k) as (r & -> & Hr); [by left|]. simpl.
    destruct r.
    + destruct IH as (r' & -> & Hr').
      { intros k' Hk'. apply H. by right. }
      exists r'. split; [done|]. rewrite Hr'. split.
      * intros Hall k' Hk'. apply elem_of_cons in Hk' as [->|Hk'];
          [by apply Hr|by apply Hall].
      * intros Hall k' Hk'. apply Hall. by right.
    + exists false. split; [done|]. split; [done|].
      intros Hall. apply Hr, Hall. by left.
Qed.

Lemma free_test (guard : bool) (read : option value) (x : value) :
  (guard = true → is_Some read) →
  ∃ r, (if guard then v ← read; Some (v !== x) else Some true) = Some r
       ∧ (r = true ↔ (guard = true → read ≠ Some x)).
Proof.
  intros Hread. destruct guard; [|exists true; by split].
  destruct Hread as [v ->]; [done|]. simpl. eexists. split; [done|].
  destruct (v === x) eqn:Hv; simpl.
  - apply strict_eq_true in Hv. subst. split; [done|]. intros H. by destruct H.
  - apply strict_eq_false in Hv. split; [|done]. intros _ _. congruence.
Qed.

Lemma same_box (i r : nat) :
  (i < 9)%nat → (r < 9)%nat →
  (r / 3 =? i / 3)%nat = ((r / 3 * 3 <=? i) && (i <? r / 3 * 3 + 3))%nat.
Proof.
  intros Hi Hr.
  do 9 (destruct i as [|i];
        [do 9 (destruct r as [|r]; [reflexivity|]); lia|]).
  lia.
Qed.

(** [isValidMove(row, col, value)] on a board with its nine rows, for a
    cell of the grid and a nonzero value, returns true exactly when no other
    cell that [isRelated] marks for [(row, col)] (same row, same column or
    same 3 by 3 box) holds the value; the box search skips the cells of the
    row and the column of the cell, which the first two searches have
    covered. For the value 0 or without a board it returns true. *)
Theorem isValidMove_iff_no_related_duplicate :
  (∀ s b row col value,
     board s = Some b → (9 ≤ length b)%nat → value ≠ 0 →
     (row < 9)%nat → (col < 9)%nat →
     ∃ r, isValidMove row col value s = Some r
       ∧ (r = true
          ↔ ∀ i j, (i < 9)%nat → (j < 9)%nat → (i, j) ≠ (row, col) →
              isRelated (Some (row, col)) i j = true →
              grid_get b i j ≠ Some (Num value)))
  ∧ (∀ s row col, isValidMove row col 0 s = Some true)
  ∧ (∀ s row col value, board s = None →
       isValidMove row col value s = Some true).
Proof.
  split; [|split].
  - intros s b row col value Hb Hlen Hv Hrow Hcol.
    unfold isValidMove. rewrite Hb.
    apply Z.eqb_neq in Hv. rewrite Hv.
    assert (Hread : ∀ i j, (i < 9)%nat → is_Some (grid_get b i j))
      by (intros i j Hi; apply grid_get_total; lia).
    destruct (all_until_spec range9
                (λ j, if negb (j =? col)%nat
                      then v ← grid_get b row j; Some (v !== Num value)
                      else Some true)
                (λ j, negb (j =? col)%nat = true
                      → grid_get b row j ≠ Some (Num value)))
      as (r1 & Hloop1 & Hr1).
    { intros j _. apply free_test. intros _. by apply Hread. }
    destruct (all_until_spec range9
                (λ i, if negb (i =? row)%nat
                      then v ← grid_get b i col; Some (v !== Num value)
                      else Some true)
                (λ i, negb (i =? row)%nat = true
                      → grid_get b i col ≠ Some (Num value)))
      as (r2 & Hloop2 & Hr2).
    { intros i Hi. apply free_test. intros _. apply Hread.
      by apply elem_of_range9. }
    destruct (all_until_spec (seq (row / 3 * 3) 3)
                (λ i, all_until (seq (col / 3 * 3) 3) (λ j,
                   if negb (i =? row)%nat && negb (j =? col)%nat
                   then v ← grid_get b i j; Some (v !== Num value)
                   else Some true))
                (λ i, ∀ j, j ∈ seq (col / 3 * 3) 3 →
                   negb (i =? row)%nat && negb (j =? col)%nat = true
                   → grid_get b i j ≠ Some (Num value)))
      as (r3 & Hloop3 & Hr3).
    { intros i Hi. apply all_until_spec. intros j _. apply free_test.
      intros _. apply Hread. apply elem_of_seq in Hi.
      assert (row / 3 * 3 + 3 ≤ 9)%nat; [|lia].
      do 9 (destruct row as [|row]; [vm_compute; lia|]). lia. }
    assert (Hrel : (r1 = true ∧ r2 = true ∧ r3 = true)
      ↔ ∀ i j, (i < 9)%nat → (j < 9)%nat → (i, j) ≠ (row, col) →
          isRelated (Some (row, col)) i j = true →
          grid_get b i j ≠ Some (Num value)).
    { rewrite Hr1, Hr2, Hr3. unfold isRelated. split.
      - intros (HA & HB & HC) i j Hi Hj Hne Hrelated.
        destruct (decide (i = row)) as [->|Hir].
        + apply HA; [by apply elem_of_range9_iff|].
          apply negb_true_iff, Nat.eqb_neq. congruence.
        + destruct (decide (j = col)) as [->|Hjc].
          * apply HB; [by apply elem_of_range9_iff|].
            by apply negb_true_iff, Nat.eqb_neq.
          * apply orb_prop in Hrelated as [Hrelated|Hbox].
            { apply orb_prop in Hrelated as [H|H];
                apply Nat.eqb_eq in H; congruence. }
            apply andb_prop in Hbox as [Hbr Hbc].
            rewrite same_box in Hbr by done.
            rewrite same_box in Hbc by done.
            apply andb_prop in Hbr as [Hr_lo Hr_hi].
            apply andb_prop in Hbc as [Hc_lo Hc_hi].
            apply Nat.leb_le in Hr_lo, Hc_lo.
            apply Nat.ltb_lt in Hr_hi, Hc_hi.
            apply (HC i); [apply elem_of_seq; lia|apply elem_of_seq; lia|].
            apply andb_true_intro.
            split; by apply negb_true_iff, Nat.eqb_neq.
      - intros Hall. split; [|split].
        + intros j Hj Hguard. apply elem_of_range9 in Hj.
          apply negb_true_iff, Nat.eqb_neq in Hguard.
          apply Hall; [done..|congruence|].
          by rewrite Nat.eqb_refl.
        + intros i Hi Hguard. apply elem_of_range9 in Hi.
          apply negb_true_iff, Nat.eqb_neq in Hguard.
          apply Hall; [done..|congruence|].
          by rewrite Nat.eqb_refl, orb_true_r.
        + intros i Hi j Hj Hguard.
          apply elem_of_seq in Hi. apply elem_of_seq in Hj.
          apply andb_prop in Hguard as [Hgi Hgj].
          apply negb_true_iff, Nat.eqb_neq in Hgi.
          assert (Hbounds : (row / 3 * 3 + 3 ≤ 9 ∧ col / 3 * 3 + 3 ≤ 9)%nat).
          { split.
            - clear -Hrow. do 9 (destruct row as [|row]; [vm_compute; lia|]).
              lia.
            - clear -Hcol. do 9 (destruct col as [|col]; [vm_compute; lia|]).
              lia. }
          assert (Hi9 : (i < 9)%nat) by lia.
          assert (Hj9 : (j < 9)%nat) by lia.
          apply Hall; [done..|congruence|].
          rewrite (same_box i row), (same_box j col) by done.
          apply orb_true_intro. right. apply andb_true_intro. split.
          * apply andb_true_intro. split;
              [apply Nat.leb_le|apply Nat.ltb_lt]; lia.
          * apply andb_true_intro. split;
              [apply Nat.leb_le|apply Nat.ltb_lt]; lia. }
    rewrite Hloop1, bind_Some_eq.
    destruct r1; cbn [negb].
    + rewrite Hloop2, bind_Some_eq. destruct r2; cbn [negb].
      * rewrite Hloop3. exists r3. split; [done|].
        rewrite <- Hrel. by intuition.
      * exists false. split; [done|]. rewrite <- Hrel. by intuition.
    + exists false. split; [done|]. rewrite <- Hrel. by intuition.
  - intros s row col. unfold isValidMove. by destruct (board s).
  - intros s row col value Hb. unfold isValidMove. by rewrite Hb.
Qed.

Lemma isValidMove_iff_no_related_duplicate_witness :
  ∃ r, isValidMove 0 0 3 selectedGame = Some r
    ∧ (r = true
       ↔ ∀ i j, (i < 9)%nat → (j < 9)%nat → (i, j) ≠ (0, 0)%nat →
           isRelated (Some (0, 0)%nat) i j = true →
           grid_get samplePuzzle i j ≠ Some (Num 3)).
Proof.
  assert (Hb : board selectedGame = Some samplePuzzle)
    by (vm_compute; reflexivity).
  assert (Hlen : (9 ≤ length samplePuzzle)%nat) by (vm_compute; lia).
  assert (Hv : 3 ≠ 0) by lia.
  assert (Hr : (0 < 9)%nat) by lia.
  exact (proj1 isValidMove_iff_no_related_duplicate selectedGame samplePuzzle
           0%nat 0%nat 3 Hb Hlen Hv Hr Hr).
Defined.

(** ** Related cells *)

(** The cells marked as related to a selected cell are those of its row,
    its column and its 3 by 3 box: the relation is symmetric, holds of the
    cell itself, marks exactly 21 cells of the grid for every selected cell of
    the grid, and marks none without a selection. *)
Theorem related_cells_of_a_selection :
  (∀ r c i j, isRelated (Some (r, c)) i j = isRelated (Some (i, j)) r c)
  ∧ (∀ r c, isRelated (Some (r, c)) r c = true)
  ∧ (∀ r c, (r < 9)%nat → (c < 9)%nat →
       length (filter (λ cell, isRelated (Some (r, c)) cell.1 cell.2 = true)
                 cells9) = 21%nat)
  ∧ (∀ i j, isRelated None i j = false).
Proof.
  split; [|split; [|split]].
  - intros r c i j. unfold isRelated.
    by rewrite (Nat.eqb_sym r i), (Nat.eqb_sym c j),
      (Nat.eqb_sym (r / 3) (i / 3)), (Nat.eqb_sym (c / 3) (j / 3)).
  - intros r c. unfold isRelated. by rewrite Nat.eqb_refl.
  - intros r c Hr Hc.
    do 9 (destruct r as [|r];
          [do 9 (destruct c as [|c]; [vm_compute; reflexivity|]); lia|]).
    lia.
  - done.
Qed.

(** ** The board keeps the shape of the puzzle *)

Lemma grid_set_same_shape (b ib : grid) (row col : nat) (v : value) :
  same_shape b ib → grid_get ib row col = Some (Num 0) →
  same_shape (grid_set row col v b) ib.
Proof.
  unfold same_shape, grid_set, grid_get. intros Hshape Hcell.
  rewrite <- Hshape. apply list_eq. intros i.
  rewrite !list_lookup_fmap.
  destruct (decide (row = i)) as [<-|Hne];
    [|by rewrite list_lookup_alter_ne].
  rewrite list_lookup_alter_eq.
  destruct (ib !! row) as [rib|] eqn:Hrib; [simpl in Hcell|done].
  assert (Hlen : (length <$> b) !! row = Some (length rib))
    by (by rewrite Hshape, list_lookup_fmap, Hrib).
  rewrite list_lookup_fmap in Hlen.
  destruct (b !! row) as [rb|]; [simpl in *|done].
  f_equal. simplify_eq. unfold array_set.
  assert (Hcol : (col < length rib)%nat).
  { unfold get in Hcell. destruct (rib !! col) eqn:Hc; [|done].
    by eapply lookup_lt_Some. }
  case_decide; [by rewrite length_insert|lia].
Qed.

(** In every state the component reaches the initial board is the puzzle,
    and the board is loaded together with it and has its shape (the same
    number of rows and the same row lengths): no write of a callback ever
    lands outside the rows of the puzzle or extends one. *)
Theorem board_keeps_the_shape_of_the_puzzle (s : Game) :
  reachable s →
  initialBoard s = puzzle s
  ∧ (board s = None ↔ initialBoard s = None)
  ∧ (∀ b ib, board s = Some b → initialBoard s = Some ib → same_shape b ib).
Proof.
  induction 1 as [|ev s Hreach (Hip & Hnone & Hshape)].
  - split; [done|]. split; [done|]. done.
  - assert (Hcase : is_DataArrived ev ∨ ¬ is_DataArrived ev)
      by (destruct ev; simpl; tauto).
    destruct Hcase as [Hev|Hev].
    + destruct ev; try done. unfold exec. simpl. autorewrite with frame.
      simpl. split; [done|]. split; [done|].
      intros b ib [= <-] [= <-]. done.
    + destruct (exec_step ev s Hev) as (Hp & _ & Hi & _ & _ & _ & Hb & _).
      rewrite Hp, Hi. split; [done|].
      destruct Hb as [->|(b & ib & row & col & v & Hbs & Hibs & Hcell & ->)].
      * by split.
      * split; [by rewrite Hibs|].
        intros b' ib' [= <-] Hib'. rewrite Hibs in Hib'. simplify_eq.
        apply grid_set_same_shape; [by apply Hshape|done].
Qed.

Lemma board_keeps_the_shape_of_the_puzzle_witness :
  initialBoard wonGame = puzzle wonGame
  ∧ (board wonGame = None ↔ initialBoard wonGame = None)
  ∧ (∀ b ib, board wonGame = Some b → initialBoard wonGame = Some ib →
       same_shape b ib).
Proof.
  apply (board_keeps_the_shape_of_the_puzzle wonGame).
  unfold wonGame, placeDigit, lastCellSelected, selectCell, lastCellGame.
  do 4 apply reachable_exec. apply reachable_mount.
Defined.

(** ** The time display *)

(** For every timer value below 100 minutes [formatTime] shows exactly
    MM:SS: the two decimal digits of the minutes, a colon and the two decimal
    digits of the seconds of the minute. *)
Theorem formatTime_is_MM_SS (seconds : Z) :
  0 ≤ seconds < 6000 →
  formatTime seconds
  = (two_digits (seconds / 60) ++ ":" ++ two_digits (seconds mod 60))%string.
Proof.
  intros Hrange.
  assert (Hall : forallb
            (λ n, String.eqb (formatTime (Z.of_nat n))
                    (two_digits (Z.of_nat n / 60) ++ ":"
                     ++ two_digits (Z.of_nat n mod 60))%string)
            (seq 0 (Z.to_nat 6000)) = true) by (vm_compute; reflexivity).
  rewrite forallb_forall in Hall.
  specialize (Hall (Z.to_nat seconds)).
  rewrite Z2Nat.id in Hall by lia.
  apply String.eqb_eq, Hall, in_seq. lia.
Qed.

Lemma formatTime_is_MM_SS_witness : formatTime 754 = "12:34".
Proof.
  rewrite (formatTime_is_MM_SS 754) by lia. reflexivity.
Defined.
